(** * Verification of the weather-archive acquisition pipeline

    Shallow embedding of [src/module_1/module_1_meteo_api.py]:
    [validate_response], [fetch_data_interval], [get_meteo_data] and the
    guarded entry point of the script.

    - JSON payloads are a dynamically typed value ([json]); the Python
      operators the code applies to them ([in], [x[k]], [len]) are written
      out with the exceptions they raise on the wrong kind of value.
    - Exceptions are an inductive type; [except C] clauses are tried in
      textual order with an [isinstance]-style class test.
    - Effects ([requests.get], [time.sleep], [logging]) are threaded through
      a state-and-exception monad whose state is the transport's world and
      the trace of events performed so far.
    - [datetime] values are calendar triples in Python's supported range
      (0001-01-01 .. 9999-12-31); arithmetic past the range raises
      [OverflowError] as [datetime + timedelta] does.
    - The pipeline is given twice: over responses whose body is decoded and
      dates that are parsed, and over raw responses, whose [json()] may
      raise, and date strings, which [strptime] may refuse. The first is
      the second where every body decodes and both strings parse
      ([get_meteo_data_raw_decoded]). *)

From Stdlib Require Import ZArith Lia List Bool String Ascii QArith DecimalString.
From stdpp Require Import base option list gmap strings.

Set Default Proof Using "Type".
Set Warnings "-register-all".
Local Open Scope string_scope.
Local Open Scope Z_scope.

(** ** JSON values, as produced by [response.json()] *)

Inductive json : Type :=
  | JNull
  | JBool (b : bool)
  | JNum (q : Q)
  | JStr (s : string)
  | JArr (l : list json)
  | JObj (m : gmap string json).

(** ** Exceptions *)

(** Classes of [requests.exceptions.RequestException] the transport or
    [raise_for_status] can raise. [HTTPError] is a subclass of
    [RequestException] and carries the response's status code. *)
Inductive request_error : Type :=
  | ConnectionError
  | Timeout
  | HTTPError (status_code : Z)
  | OtherRequestError.

Inductive exn : Type :=
  | RuntimeError (msg : string)
  | ValueError (msg : string)
  | KeyError (key : string)
  | IndexError
  | TypeError
  | OverflowError
  | RequestException (e : request_error)
  | KeyboardInterrupt.

(** [isinstance(e, requests.exceptions.RequestException)] *)
Definition is_RequestException (e : exn) : bool :=
  match e with RequestException _ => true | _ => false end.

(** [isinstance(e, requests.exceptions.HTTPError)] *)
Definition is_HTTPError (e : exn) : bool :=
  match e with RequestException (HTTPError _) => true | _ => false end.

(** [isinstance(e, RuntimeError)] *)
Definition is_RuntimeError (e : exn) : bool :=
  match e with RuntimeError _ => true | _ => false end.


(** [isinstance(e, Exception)]: every class but [KeyboardInterrupt], which
    derives from [BaseException] directly. *)
Definition is_Exception (e : exn) : bool :=
  match e with KeyboardInterrupt => false | _ => true end.

(** The exception classes raised by the payload handling and by the end of
    the retry loop. *)
Definition payload_error (e : exn) : bool :=
  match e with
  | RuntimeError _ | KeyError _ | IndexError | TypeError => true
  | _ => false
  end.

(** The exit status of the interpreter once the script is over: 0 when its
    last statement completes, non-zero when an exception leaves it. *)
Definition exit_status (r : exn + unit) : Z :=
  match r with inr _ => 0 | inl _ => 1 end.

(** ** Pure computations that may raise *)

Definition res (A : Type) : Type := exn + A.

Definition rbind {A B} (x : res A) (f : A -> res B) : res B :=
  match x with inl e => inl e | inr a => f a end.

Declare Scope res_scope.
Delimit Scope res_scope with res.
Notation "'try!' x := c1 'in' c2" := (rbind c1 (fun x => c2))
  (at level 10, x name, c1 at level 100, c2 at level 200) : res_scope.

(** ** Python operators on JSON values *)

(** [needle in hay] for two [str]: substring test. *)
Fixpoint str_contains (needle hay : string) : bool :=
  String.prefix needle hay
  || match hay with
     | EmptyString => false
     | String _ hay' => str_contains needle hay'
     end.

(** [k in v] for a [str] [k]. *)
Definition py_contains (k : string) (v : json) : res bool :=
  match v with
  | JObj m => inr (bool_decide (is_Some (m !! k)))
  | JArr l => inr (existsb (fun x => match x with
                                     | JStr s => String.eqb s k
                                     | _ => false
                                     end) l)
  | JStr s => inr (str_contains k s)
  | JNull | JBool _ | JNum _ => inl TypeError
  end.

(** [v[k]] for a [str] [k]. *)
Definition py_getitem (v : json) (k : string) : res json :=
  match v with
  | JObj m => match m !! k with
              | Some x => inr x
              | None => inl (KeyError k)
              end
  | _ => inl TypeError
  end.

(** A [str] is held as its UTF-8 encoding, and Python counts and indexes it
    by code point: a byte that is no continuation byte (10xxxxxx) together
    with the continuation bytes that follow it. *)
Definition is_continuation (c : ascii) : bool :=
  match c with Ascii _ _ _ _ _ _ b6 b7 => b7 && negb b6 end.

Definition starts_inside (s : string) : bool :=
  match s with
  | String c _ => is_continuation c
  | EmptyString => false
  end.

Fixpoint code_points (s : string) : list string :=
  match s with
  | EmptyString => []
  | String c s' =>
      match code_points s' with
      | cp :: cps =>
          if starts_inside s' then String c cp :: cps
          else String c EmptyString :: cp :: cps
      | [] => [String c EmptyString]
      end
  end.

(** [v[i]] for a non-negative [int] [i]. The keys of a decoded JSON object
    are strings, so an integer subscript of a [dict] is a [KeyError]. *)
Definition py_getindex (v : json) (i : nat) : res json :=
  match v with
  | JArr l => match l !! i with
              | Some x => inr x
              | None => inl IndexError
              end
  | JStr s => match code_points s !! i with
              | Some c => inr (JStr c)
              | None => inl IndexError
              end
  | JObj _ => inl (KeyError (NilEmpty.string_of_uint (Nat.to_uint i)))
  | JNull | JBool _ | JNum _ => inl TypeError
  end.

(** [len(v)] *)
Definition py_len (v : json) : res nat :=
  match v with
  | JArr l => inr (length l)
  | JStr s => inr (length (code_points s))
  | JObj m => inr (size m)
  | JNull | JBool _ | JNum _ => inl TypeError
  end.

(** ** Constants *)

Definition VARIABLES : list string :=
  ["temperature_2m_mean"; "precipitation_sum"; "wind_speed_10m_max"].

Definition MAX_RETRIES : nat := 5.

Definition API_URL : string := "https://archive-api.open-meteo.com/v1/archive?".

(** ** [validate_response] *)

Definition msg_no_daily : string :=
  "La respuesta de la API no contiene la clave 'daily'.".

Definition msg_missing (key : string) : string :=
  ("Falta la clave esperada '" ++ key ++ "' en la respuesta de la API.")%string.

(** The [for key in VARIABLES] loop; [data["daily"]] is evaluated in every
    round, as in the source. *)
Fixpoint validate_keys (data : json) (keys : list string) : res unit :=
  match keys with
  | [] => inr tt
  | key :: keys' =>
      (try! daily := py_getitem data "daily" in
       try! present := py_contains key daily in
       if negb present then inl (RuntimeError (msg_missing key))
       else validate_keys data keys')%res
  end.

Definition validate_response (data : json) : res unit :=
  (try! has_daily := py_contains "daily" data in
   if negb has_daily then inl (RuntimeError msg_no_daily)
   else validate_keys data VARIABLES)%res.

(** The first key of [keys] that [dm] lacks, in the order of [keys]. *)
Definition first_missing (dm : gmap string json) (keys : list string)
  : option string :=
  find (fun k => negb (bool_decide (is_Some (dm !! k)))) keys.

(** ** Calendar dates ([datetime] at midnight) *)

Record date : Type := mkdate { year : Z; month : Z; day : Z }.

Definition MINYEAR : Z := 1.
Definition MAXYEAR : Z := 9999.

Definition is_leap (y : Z) : bool :=
  (y mod 4 =? 0) && (negb (y mod 100 =? 0) || (y mod 400 =? 0)).

Definition days_in_month (y m : Z) : Z :=
  match m with
  | 2 => if is_leap y then 29 else 28
  | 4 | 6 | 9 | 11 => 30
  | _ => 31
  end.

(** The values the [datetime] constructor accepts. *)
Definition valid_date (d : date) : bool :=
  (MINYEAR <=? year d) && (year d <=? MAXYEAR)
  && (1 <=? month d) && (month d <=? 12)
  && (1 <=? day d) && (day d <=? days_in_month (year d) (month d)).

(** [d + timedelta(days=1)] *)
Definition tomorrow (d : date) : res date :=
  if day d <? days_in_month (year d) (month d)
  then inr (mkdate (year d) (month d) (day d + 1))
  else if month d <? 12 then inr (mkdate (year d) (month d + 1) 1)
  else if year d <? MAXYEAR then inr (mkdate (year d + 1) 1 1)
  else inl OverflowError.

(** [d - timedelta(days=1)] *)
Definition yesterday (d : date) : res date :=
  if 1 <? day d then inr (mkdate (year d) (month d) (day d - 1))
  else if 1 <? month d
  then inr (mkdate (year d) (month d - 1) (days_in_month (year d) (month d - 1)))
  else if MINYEAR <? year d then inr (mkdate (year d - 1) 12 31)
  else inl OverflowError.

(** [d + timedelta(days=n)]: [n] calendar days later. *)
Fixpoint add_days (n : nat) (d : date) : res date :=
  match n with
  | O => inr d
  | S n' => (try! d' := tomorrow d in add_days n' d')%res
  end.

(** [d.replace(day=1)] *)
Definition replace_day1 (d : date) : date := mkdate (year d) (month d) 1.

(** [a < b] and [a <= b] on [datetime]: lexicographic on (year, month, day). *)
Definition date_ltb (a b : date) : bool :=
  (year a <? year b)
  || ((year a =? year b)
      && ((month a <? month b)
          || ((month a =? month b) && (day a <? day b)))).

Definition date_leb (a b : date) : bool := negb (date_ltb b a).

(** [min(a, b)]: the first argument unless the second is strictly smaller. *)
Definition date_min (a b : date) : date := if date_ltb b a then b else a.

(** [d.toordinal()]: the day count on which [datetime] does its [timedelta]
    arithmetic, 0001-01-01 being day 1. *)
Definition days_before_year (y : Z) : Z :=
  let y := y - 1 in y * 365 + y / 4 - y / 100 + y / 400.

Definition days_before_month (y m : Z) : Z :=
  match m with
  | 1 => 0 | 2 => 31 | 3 => 59 | 4 => 90 | 5 => 120 | 6 => 151
  | 7 => 181 | 8 => 212 | 9 => 243 | 10 => 273 | 11 => 304 | _ => 334
  end + (if (2 <? m) && is_leap y then 1 else 0).

Definition toordinal (d : date) : Z :=
  days_before_year (year d) + days_before_month (year d) (month d) + day d.

(** Lines 45-46 of [get_meteo_data]: the start of the next sub-range and the
    inclusive end of the current one. *)
Definition next_date_of (current_date : date) : res date :=
  (try! d := add_days 32 current_date in inr (replace_day1 d))%res.

Definition interval_end_of (next_date end_date_dt : date) : res date :=
  (try! d := yesterday next_date in inr (date_min d end_date_dt))%res.

(** Months counted from year 0: the measure of the sub-range loop. *)
Definition month_index (d : date) : Z := year d * 12 + month d.

(** Fuel that lets the sub-range loop run to its end from [current_date]. *)
Definition enough_fuel (end_date_dt current_date : date) : nat :=
  Z.to_nat (month_index end_date_dt - month_index current_date + 1) + 1.

(** ** Requests, responses, records and events *)

(** The supported-city table. *)
Definition COORDINATES : gmap string (Q * Q) :=
  {[ "Madrid" := ((404168 # 10000)%Q, (-37038 # 10000)%Q);
     "London" := ((515074 # 10000)%Q, (-1278 # 10000)%Q);
     "Rio de Janeiro" := ((-229068 # 10000)%Q, (-431729 # 10000)%Q) ]}.

(** The query parameters of one request. The two dates go on the wire
    formatted by [strftime("%Y-%m-%d")]. *)
Record params : Type := mkparams {
  p_latitude : Q;
  p_longitude : Q;
  p_start_date : date;
  p_end_date : date;
  p_daily : string;
  p_timezone : string
}.

(** What the code reads of a [requests.Response]: the status code (through
    [raise_for_status]) and the decoded body (through [json()]). A response
    whose [json()] raises is a [raw_response], below. *)
Record response : Type := mkresponse {
  status_code : Z;
  body : json
}.

(** [response.raise_for_status()] *)
Definition raise_for_status (r : response) : res unit :=
  if (400 <=? status_code r) && (status_code r <? 600)
  then inl (RequestException (HTTPError (status_code r)))
  else inr tt.

(** An outcome of [requests.get] that makes the [try] block raise a
    [RequestException]: the call itself raised, or the response carries an
    error status and [raise_for_status] raises [HTTPError]. *)
Definition is_failure (o : request_error + response) : bool :=
  match o with
  | inl _ => true
  | inr r => (400 <=? status_code r) && (status_code r <? 600)
  end.

Definition failure_error (o : request_error + response) : request_error :=
  match o with
  | inl e => e
  | inr r => HTTPError (status_code r)
  end.

(** One row of the dataset. *)
Record record : Type := mkrecord {
  r_city : string;
  r_date : json;
  r_temperature_2m_mean : json;
  r_precipitation_sum : json;
  r_wind_speed_10m_max : json
}.

Inductive level : Type := INFO | WARNING | ERROR.

(** The messages the module logs. *)
Inductive log_msg : Type :=
  | MsgInterval (city : string) (current_date interval_end_date : date)
  | MsgRetry (e : exn) (retries max_retries : nat)
  | MsgHTTP (e : exn) (status : Z)
  | MsgException (e : exn)
  | MsgUnexpected (e : exn).

Inductive event : Type :=
  | EGet (url : string) (p : params)
  | ESleep (seconds : Z)
  | ELog (lvl : level) (msg : log_msg).

Definition is_get (ev : event) : bool :=
  match ev with EGet _ _ => true | _ => false end.

Definition is_sleep (ev : event) : bool :=
  match ev with ESleep _ => true | _ => false end.

(** The parameters [fetch_data_interval] sends. *)
Definition params_of (latitude longitude : Q) (start_date end_date : date)
  : params :=
  mkparams latitude longitude start_date end_date
    "temperature_2m_mean,precipitation_sum,wind_speed_10m_max" "auto".

(** What a run of failed attempts leaves in the trace, the first of them
    being attempt number [retries + 1]. *)
Fixpoint retry_events (p : params) (os : list (request_error + response))
    (retries : nat) : list event :=
  match os with
  | [] => []
  | o :: os' =>
      EGet API_URL p
      :: ELog WARNING (MsgRetry (RequestException (failure_error o))
                         (S retries) MAX_RETRIES)
      :: ESleep 5
      :: retry_events p os' (S retries)
  end.

(** The sub-ranges requested in a trace, in order. *)
Definition requested_ranges (tr : list event) : list (date * date) :=
  flat_map (fun ev => match ev with
                      | EGet _ p => [(p_start_date p, p_end_date p)]
                      | _ => []
                      end) tr.

(** ** Extraction of the rows of a validated payload (lines 82-93) *)

Fixpoint build_rows (city : string) (daily_data dates : json) (idx : list nat)
  : res (list record) :=
  match idx with
  | [] => inr []
  | i :: idx' =>
      (try! d := py_getindex dates i in
       try! tcol := py_getitem daily_data "temperature_2m_mean" in
       try! t := py_getindex tcol i in
       try! pcol := py_getitem daily_data "precipitation_sum" in
       try! p := py_getindex pcol i in
       try! wcol := py_getitem daily_data "wind_speed_10m_max" in
       try! w := py_getindex wcol i in
       try! rest := build_rows city daily_data dates idx' in
       inr (mkrecord city d t p w :: rest))%res
  end.

Definition extract_rows (city : string) (data : json) : res (list record) :=
  (try! daily_data := py_getitem data "daily" in
   try! dates := py_getitem daily_data "date" in
   try! n := py_len dates in
   build_rows city daily_data dates (seq 0 n))%res.

Definition msg_max_retries : string :=
  ("No se pudo obtener datos después de "
   ++ NilEmpty.string_of_uint (Nat.to_uint MAX_RETRIES) ++ " intentos.")%string.

Section Pipeline.

(** The network: [requests.get(url, params=p)] either raises a
    [RequestException] or returns a response, and may change the state of
    the outside world (a server, a mock's call counter). *)
Variable World : Type.
Variable requests_get : string -> params -> World -> (request_error + response) * World.

Record state : Type := mkstate {
  world : World;
  trace : list event
}.

(** ** The monad of effectful computations *)

Definition M (A : Type) : Type := state -> res A * state.

Definition ret {A} (a : A) : M A := fun st => (inr a, st).

Definition raise {A} (e : exn) : M A := fun st => (inl e, st).

Definition bind {A B} (m : M A) (f : A -> M B) : M B :=
  fun st => match m st with
            | (inr a, st') => f a st'
            | (inl e, st') => (inl e, st')
            end.

(** [try: m except ...: h e] where [h] decides by the class of [e]. *)
Definition catch {A} (m : M A) (h : exn -> M A) : M A :=
  fun st => match m st with
            | (inr a, st') => (inr a, st')
            | (inl e, st') => h e st'
            end.

Definition lift {A} (r : res A) : M A := fun st => (r, st).

Definition emit (ev : event) : M unit :=
  fun st => (inr tt, mkstate (world st) (trace st ++ [ev])%list).

Notation "'do' x <- c1 ; c2" := (bind c1 (fun x => c2))
  (at level 10, x name, c1 at level 100, c2 at level 200).

Definition sleep (seconds : Z) : M unit := emit (ESleep seconds).

Definition logging (lvl : level) (msg : log_msg) : M unit := emit (ELog lvl msg).

(** [requests.get(API_URL, params=p)] *)
Definition http_get (p : params) : M response :=
  fun st =>
    let '(o, w) := requests_get API_URL p (world st) in
    (match o with
     | inl e => inl (RequestException e)
     | inr r => inr r
     end,
     mkstate w (trace st ++ [EGet API_URL p])%list).

(** ** [fetch_data_interval] *)

(** The body of the [try] block, lines 77-93, on a response whose body
    decodes. *)
Definition attempt (city : string) (p : params) : M (list record) :=
  do response <- http_get p ;
  do _ <- lift (raise_for_status response) ;
  let data := body response in
  do _ <- lift (validate_response data) ;
  lift (extract_rows city data).

(** [while retries < MAX_RETRIES], lines 75-105. Every round that does not
    leave the function adds one to [retries], so the loop is written by
    recursion on [budget], the number of rounds the condition still admits
    ([MAX_RETRIES - retries]). The two [except] clauses are tried in their
    textual order. *)
Fixpoint retry_loop (budget retries : nat) (city : string) (p : params)
  : M (list record) :=
  match budget with
  | O => raise (RuntimeError msg_max_retries)
  | S budget' =>
      catch (attempt city p) (fun e =>
        if is_RequestException e then
          let retries := S retries in
          do _ <- logging WARNING (MsgRetry e retries MAX_RETRIES) ;
          do _ <- sleep 5 ;
          retry_loop budget' retries city p
        else if is_HTTPError e then
          match e with
          | RequestException (HTTPError 404) => raise e
          | RequestException (HTTPError status) =>
              do _ <- logging ERROR (MsgHTTP e status) ;
              let retries := S retries in
              do _ <- sleep 5 ;
              retry_loop budget' retries city p
          | _ => raise e
          end
        else raise e)
  end.

Definition fetch_data_interval (city : string) (latitude longitude : Q)
    (start_date end_date : date) : M (list record) :=
  let p := mkparams latitude longitude start_date end_date
             (String.concat "," VARIABLES) "auto" in
  retry_loop MAX_RETRIES 0 city p.

(** ** [get_meteo_data] *)

(** [try: m finally: fin]: [fin] runs whether or not [m] raised; an
    exception of [m] goes on propagating afterwards. *)
Definition finally {A} (m : M A) (fin : M unit) : M A :=
  fun st => match m st with
            | (r, st') => match fin st' with
                          | (inr _, st'') => (r, st'')
                          | (inl e, st'') => (inl e, st'')
                          end
            end.

Section Assembler.

(** The per-sub-range fetcher is looked up by name at each call (the tests
    replace it by a mock), so the assembler is written over any fetcher. *)
Variable fetcher : string -> Q -> Q -> date -> date -> M (list record).

(** Lines 48-56: one [try / except RuntimeError / finally]. The value is
    [all_data] after the round. *)
Definition fetch_round (city : string) (latitude longitude : Q)
    (current_date interval_end_date : date) (all_data : list record)
  : M (list record) :=
  finally
    (catch
       (do _ <- logging INFO (MsgInterval city current_date interval_end_date) ;
        do interval_data <- fetcher city latitude longitude current_date interval_end_date ;
        ret (all_data ++ interval_data)%list)
       (fun e =>
          if is_RuntimeError e
          then do _ <- logging ERROR (MsgException e) ; ret all_data
          else raise e))
    (sleep 1).

(** [while current_date <= end_date_dt], lines 44-56, with [fuel] bounding
    the number of times the condition is tested; [None] when it runs out. *)
Fixpoint months_loop (fuel : nat) (city : string) (latitude longitude : Q)
    (end_date_dt current_date : date) (all_data : list record) (st : state)
  : option (res (list record) * state) :=
  match fuel with
  | O => None
  | S fuel' =>
      if date_leb current_date end_date_dt then
        match next_date_of current_date with
        | inl e => Some (inl e, st)
        | inr next_date =>
            match interval_end_of next_date end_date_dt with
            | inl e => Some (inl e, st)
            | inr interval_end_date =>
                match fetch_round city latitude longitude
                        current_date interval_end_date all_data st with
                | (inr all_data', st') =>
                    months_loop fuel' city latitude longitude
                      end_date_dt next_date all_data' st'
                | (inl e, st') => Some (inl e, st')
                end
            end
        end
      else Some (inr all_data, st)
  end.

Definition msg_city (city : string) : string :=
  ("Ciudad no soportada: " ++ city)%string.

Definition msg_interval : string := "El intervalo debe ser 'month'.".

(** [get_meteo_data(city, start_date, end_date, interval)]. The two dates
    are taken as parsed by [datetime.strptime(_, "%Y-%m-%d")]; the returned
    list is the content of the data frame. [get_meteo_data_raw], below,
    starts from the two strings. *)
Definition get_meteo_data_with (fuel : nat) (city : string)
    (start_date end_date : date) (interval : string) (st : state)
  : option (res (list record) * state) :=
  match COORDINATES !! city with
  | None => Some (inl (ValueError (msg_city city)), st)
  | Some (latitude, longitude) =>
      if negb (String.eqb interval "month")
      then Some (inl (ValueError msg_interval), st)
      else months_loop fuel city latitude longitude end_date start_date [] st
  end.

End Assembler.

(** The module as it is, with its own fetcher. *)
Definition get_meteo_data := get_meteo_data_with fetch_data_interval.

(** [responds p w os w']: from world [w], successive calls with parameters
    [p] have the outcomes [os] and leave the world [w']. *)
Inductive responds (p : params)
  : World -> list (request_error + response) -> World -> Prop :=
  | responds_nil w : responds p w [] w
  | responds_cons w o w1 os w' :
      requests_get API_URL p w = (o, w1) ->
      responds p w1 os w' ->
      responds p w (o :: os) w'.

(** ** The guarded entry point, lines 214-218 *)

(** [try: main() except Exception as e: logging.error(...)], over any
    behaviour of [main]. *)
Definition dunder_main (main : M unit) : M unit :=
  catch main (fun e =>
    if is_Exception e then logging ERROR (MsgUnexpected e) else raise e).

End Pipeline.

Arguments mkstate {World}.
Arguments world {World}.
Arguments trace {World}.

Definition record_event {W : Type} (st : state W) (ev : event) : state W :=
  mkstate (world st) (trace st ++ [ev])%list.

(** ** Concrete transports *)

(** A transport that plays a script of outcomes, one per call, and refuses
    the connection once the script is over. Its world is what is left of the
    script. *)
Definition scripted (url : string) (p : params)
    (w : list (request_error + response))
  : (request_error + response) * list (request_error + response) :=
  match w with
  | [] => (inl ConnectionError, [])
  | o :: w' => (o, w')
  end.

(** A transport that gives the same outcome at every call, counting the
    calls (a mock with a fixed [return_value]). *)
Definition always (o : request_error + response) (url : string) (p : params)
    (calls : nat) : (request_error + response) * nat :=
  (o, S calls).

Definition madrid_lat : Q := (404168 # 10000)%Q.
Definition madrid_lon : Q := (-37038 # 10000)%Q.

(** The payload of the repository's tests. *)
Definition mock_daily : gmap string json :=
  {[ "date" := JArr [JStr "2020-01-01"; JStr "2020-01-02"; JStr "2020-01-03"];
     "temperature_2m_mean" := JArr [JNum 5; JNum 6; JNum 7];
     "precipitation_sum" := JArr [JNum 0; JNum (12 # 10); JNum (8 # 10)];
     "wind_speed_10m_max" := JArr [JNum 15; JNum 20; JNum 18] ]}.

Definition mock_payload : gmap string json := {[ "daily" := JObj mock_daily ]}.

Definition MOCK_RESPONSE : response := mkresponse 200 (JObj mock_payload).

Definition payload_without_temperature : gmap string json :=
  {[ "daily" := JObj {[ "date" := JArr [];
                        "precipitation_sum" := JArr [];
                        "wind_speed_10m_max" := JArr [] ]} ]}.

Definition payload_without_date : json :=
  JObj {[ "daily" := JObj {[ "temperature_2m_mean" := JArr [];
                            "precipitation_sum" := JArr [];
                            "wind_speed_10m_max" := JArr [] ]} ]}.

Definition not_found : request_error + response := inr (mkresponse 404 JNull).

(** A stand-in for the fetcher that raises [RuntimeError] at every call. *)
Definition failing_fetcher (city : string) (latitude longitude : Q)
    (start_date end_date : date) : M unit (list record) :=
  raise unit (RuntimeError msg_max_retries).

Definition d_2020_01_01 : date := mkdate 2020 1 1.
Definition d_2020_01_03 : date := mkdate 2020 1 3.

Definition d_2020_01_31 : date := mkdate 2020 1 31.
Definition d_2020_03_15 : date := mkdate 2020 3 15.

(** ** Notions used in the statements about whole runs *)

(** The rows of a payload whose four arrays are read index by index: one
    row per position present in all of them. *)
Definition zip_rows (city : string) (dates tcol pcol wcol : list json)
  : list record :=
  zip_with (fun d x => mkrecord city d x.1 x.2.1 x.2.2)
    dates (zip tcol (zip pcol wcol)).

(** The 1-second pause between sub-ranges. *)
Definition is_pause (ev : event) : bool :=
  match ev with ESleep 1 => true | _ => false end.

(** The sub-ranges the loop of lines 44-56 goes through, each a pair
    ([current_date], [interval_end_date]), computed as the loop computes
    them (lines 45, 46 and 55). The list stops where the loop stops: at the
    first [current_date] after [end_date_dt], or where the date arithmetic
    raises, or when [fuel] is spent. *)
Fixpoint subranges (fuel : nat) (end_date_dt current_date : date)
  : list (date * date) :=
  match fuel with
  | O => []
  | S fuel' =>
      if date_leb current_date end_date_dt then
        match next_date_of current_date with
        | inl _ => []
        | inr next_date =>
            match interval_end_of next_date end_date_dt with
            | inl _ => []
            | inr interval_end_date =>
                (current_date, interval_end_date)
                :: subranges fuel' end_date_dt next_date
            end
        end
      else []
  end.

Definition month_ranges (start_date end_date : date) : list (date * date) :=
  subranges (enough_fuel end_date start_date) end_date start_date.

(** [tiles end_date a rs]: the sub-ranges [rs] tile the days from [a] to
    [end_date]. Each one is a non-empty range; one that is followed by
    another ends on the last day of a month, and the next one starts on the
    day after, the first of the following month; the last one ends on
    [end_date]. A sub-range that starts on the first of a month stays within
    that month. *)
Inductive tiles (end_date : date) : date -> list (date * date) -> Prop :=
  | tiles_last a :
      date_leb a end_date = true ->
      (day a = 1 -> year a = year end_date /\ month a = month end_date) ->
      tiles end_date a [(a, end_date)]
  | tiles_step a b c rs :
      date_leb a b = true ->
      tomorrow b = inr c ->
      day b = days_in_month (year b) (month b) ->
      day c = 1 ->
      month_index b + 1 = month_index c ->
      (day a = 1 -> year a = year b /\ month a = month b) ->
      date_leb c end_date = true ->
      tiles end_date c rs ->
      tiles end_date a ((a, b) :: rs).

(** The rounds of the loop over a given list of sub-ranges: [fetch_round]
    on each in turn, until one raises. *)
Fixpoint run_rounds {World : Type}
    (fetcher : string -> Q -> Q -> date -> date -> M World (list record))
    (city : string) (latitude longitude : Q) (ranges : list (date * date))
    (all_data : list record) (st : state World)
  : res (list record) * state World :=
  match ranges with
  | [] => (inr all_data, st)
  | (a, b) :: ranges' =>
      match fetch_round World fetcher city latitude longitude a b all_data st with
      | (inr all_data', st') =>
          run_rounds fetcher city latitude longitude ranges' all_data' st'
      | (inl e, st') => (inl e, st')
      end
  end.

(** The sub-ranges announced in the log of a trace, in order. *)
Definition logged_intervals (tr : list event) : list (string * date * date) :=
  flat_map (fun ev => match ev with
                      | ELog INFO (MsgInterval c a b) => [(c, a, b)]
                      | _ => []
                      end) tr.

(** The time a trace spends in [time.sleep], in seconds. *)
Definition seconds_slept (tr : list event) : Z :=
  foldr (fun ev acc => match ev with ESleep n => n + acc | _ => acc end) 0 tr.

(** The dates [main] asks for. *)
Definition d_2010_01_01 : date := mkdate 2010 1 1.
Definition d_2020_12_31 : date := mkdate 2020 12 31.

(** ** The colour table of [plot_city_yearly_statistics], lines 146-151 *)

(** [Series.unique()]: the distinct values in the order of their first
    appearance. *)
Fixpoint unique_from (seen l : list string) : list string :=
  match l with
  | [] => []
  | x :: l' =>
      if decide (x ∈ seen) then unique_from seen l'
      else x :: unique_from (x :: seen) l'
  end.

Definition unique (l : list string) : list string := unique_from [] l.

Definition PALETTE : list string := ["blue"; "green"; "orange"].

(** [{city: color for city, color in zip(cities.unique(), PALETTE)}]: the
    pairs are entered from left to right, [zip] stopping at the shorter
    list. *)
Definition colors (cities : list string) : gmap string string :=
  foldl (fun m p => <[p.1 := p.2]> m) ∅ (zip (unique cities) PALETTE).

(** [colors[city]] *)
Definition color_of (cities : list string) (city : string) : res string :=
  match colors cities !! city with
  | Some c => inr c
  | None => inl (KeyError city)
  end.

(** ** The pipeline over undecoded responses and unparsed dates *)

(** A [response] above stands for a response whose body has been decoded,
    and the dates of [get_meteo_data] for dates already parsed. In general
    [response.json()] may raise instead of returning the payload:
    [requests.exceptions.JSONDecodeError], a [RequestException], on a body
    that is no JSON text, or whatever else the decoder raises (a
    [ValueError] on an integer literal past the interpreter's digit limit).
    A [raw_response] carries the outcome of that call. *)
Record raw_response : Type := mkraw {
  raw_status : Z;
  raw_json : res json
}.

(** [response.raise_for_status()] *)
Definition raise_for_status_raw (r : raw_response) : res unit :=
  if (400 <=? raw_status r) && (raw_status r <? 600)
  then inl (RequestException (HTTPError (raw_status r)))
  else inr tt.

(** What lines 77-79 raise on an outcome of [requests.get], if anything:
    the exception of the call, the [HTTPError] of [raise_for_status], or
    the exception of [json()]. *)
Definition early_exn (o : request_error + raw_response) : option exn :=
  match o with
  | inl e => Some (RequestException e)
  | inr r =>
      match raise_for_status_raw r with
      | inl e => Some e
      | inr _ => match raw_json r with
                 | inl e => Some e
                 | inr _ => None
                 end
      end
  end.

(** An outcome after which the loop goes round again: lines 77-79 raise a
    [RequestException], which the clause of line 94 takes. *)
Definition is_retried (o : request_error + raw_response) : bool :=
  match early_exn o with
  | Some e => is_RequestException e
  | None => false
  end.

(** A response as its decoded counterpart sees it. *)
Definition decoded (r : response) : raw_response :=
  mkraw (status_code r) (inr (body r)).

Section RawPipeline.

Variable World : Type.
Variable requests_get : string -> params -> World
                        -> (request_error + raw_response) * World.

(** [datetime.strptime(s, "%Y-%m-%d")]: the date, or the exception raised
    on a string that does not denote one. *)
Variable strptime : string -> res date.

Notation "'do' x <- c1 ; c2" := (bind World c1 (fun x => c2))
  (at level 10, x name, c1 at level 100, c2 at level 200).

(** [requests.get(API_URL, params=p)] *)
Definition http_get_raw (p : params) : M World raw_response :=
  fun st =>
    let '(o, w) := requests_get API_URL p (world st) in
    (match o with
     | inl e => inl (RequestException e)
     | inr r => inr r
     end,
     mkstate w (trace st ++ [EGet API_URL p])%list).

(** The body of the [try] block, lines 77-93. *)
Definition attempt_raw (city : string) (p : params) : M World (list record) :=
  do response <- http_get_raw p ;
  do _ <- lift World (raise_for_status_raw response) ;
  do data <- lift World (raw_json response) ;
  do _ <- lift World (validate_response data) ;
  lift World (extract_rows city data).

(** [while retries < MAX_RETRIES], lines 75-105, as [retry_loop]. *)
Fixpoint retry_loop_raw (budget retries : nat) (city : string) (p : params)
  : M World (list record) :=
  match budget with
  | O => raise World (RuntimeError msg_max_retries)
  | S budget' =>
      catch World (attempt_raw city p) (fun e =>
        if is_RequestException e then
          let retries := S retries in
          do _ <- logging World WARNING (MsgRetry e retries MAX_RETRIES) ;
          do _ <- sleep World 5 ;
          retry_loop_raw budget' retries city p
        else if is_HTTPError e then
          match e with
          | RequestException (HTTPError 404) => raise World e
          | RequestException (HTTPError status) =>
              do _ <- logging World ERROR (MsgHTTP e status) ;
              let retries := S retries in
              do _ <- sleep World 5 ;
              retry_loop_raw budget' retries city p
          | _ => raise World e
          end
        else raise World e)
  end.

Definition fetch_data_interval_raw (city : string) (latitude longitude : Q)
    (start_date end_date : date) : M World (list record) :=
  let p := mkparams latitude longitude start_date end_date
             (String.concat "," VARIABLES) "auto" in
  retry_loop_raw MAX_RETRIES 0 city p.

(** [get_meteo_data(city, start_date, end_date, interval)], lines 28-58,
    on the two date strings: the guards of lines 33-36, the parsing of
    lines 40-41, then the loop. *)
Definition get_meteo_data_raw (fuel : nat) (city : string)
    (start_date end_date : string) (interval : string) (st : state World)
  : option (res (list record) * state World) :=
  match COORDINATES !! city with
  | None => Some (inl (ValueError (msg_city city)), st)
  | Some (latitude, longitude) =>
      if negb (String.eqb interval "month")
      then Some (inl (ValueError msg_interval), st)
      else
        match strptime start_date with
        | inl e => Some (inl e, st)
        | inr current_date =>
            match strptime end_date with
            | inl e => Some (inl e, st)
            | inr end_date_dt =>
                months_loop World fetch_data_interval_raw fuel city
                  latitude longitude end_date_dt current_date [] st
            end
        end
  end.

(** [responds_raw p w os w']: from world [w], successive calls with
    parameters [p] have the outcomes [os] and leave the world [w']. *)
Inductive responds_raw (p : params)
  : World -> list (request_error + raw_response) -> World -> Prop :=
  | responds_raw_nil w : responds_raw p w [] w
  | responds_raw_cons w o w1 os w' :
      requests_get API_URL p w = (o, w1) ->
      responds_raw p w1 os w' ->
      responds_raw p w (o :: os) w'.

End RawPipeline.

(** A transport of decoded responses, seen as one of raw responses. *)
Definition decoded_transport {World : Type}
    (requests_get : string -> params -> World
                    -> (request_error + response) * World)
    (url : string) (p : params) (w : World)
  : (request_error + raw_response) * World :=
  let '(o, w') := requests_get url p w in
  (match o with
   | inl e => inl e
   | inr r => inr (decoded r)
   end, w').

(** The scripted transport, over raw responses. *)
Definition scripted_raw (url : string) (p : params)
    (w : list (request_error + raw_response))
  : (request_error + raw_response) * list (request_error + raw_response) :=
  match w with
  | [] => (inl ConnectionError, [])
  | o :: w' => (o, w')
  end.

(** A body that is no JSON text, and one whose decoding runs into the
    digit limit of [int]. *)
Definition not_json : raw_response :=
  mkraw 200 (inl (RequestException OtherRequestError)).

Definition huge_integer : raw_response :=
  mkraw 200
    (inl (ValueError "Exceeds the limit (4300 digits) for integer string conversion")).

(** [strptime] as far as the examples need it: the three dates they parse,
    and the refusal of the strings "2020-13-01" and "tomorrow" they use as
    malformed dates, any string outside the table being refused alike. *)
Definition strptime_sample (s : string) : res date :=
  if String.eqb s "2020-01-01" then inr (mkdate 2020 1 1)
  else if String.eqb s "2020-01-03" then inr (mkdate 2020 1 3)
  else if String.eqb s "2020-03-15" then inr (mkdate 2020 3 15)
  else inl (ValueError ("time data '" ++ s
                        ++ "' does not match format '%Y-%m-%d'")%string).

(** * Properties *)

(** ** The validator *)

Lemma py_getitem_error (v : json) (k : string) (e : exn) :
  py_getitem v k = inl e -> payload_error e = true.
Proof.
  destruct v; cbn; try (by intros [= <-]).
  destruct (m !! k); [discriminate|]. by intros [= <-].
Qed.

Lemma py_contains_error (k : string) (v : json) (e : exn) :
  py_contains k v = inl e -> payload_error e = true.
Proof. destruct v; cbn; try discriminate; by intros [= <-]. Qed.

Lemma py_getindex_error (v : json) (i : nat) (e : exn) :
  py_getindex v i = inl e -> payload_error e = true.
Proof.
  destruct v; cbn; try (by intros [= <-]).
  - destruct (code_points s !! i); [discriminate|]. by intros [= <-].
  - destruct (l !! i); [discriminate|]. by intros [= <-].
Qed.

Lemma py_len_error (v : json) (e : exn) :
  py_len v = inl e -> payload_error e = true.
Proof. destruct v; cbn; try discriminate; by intros [= <-]. Qed.

Ltac payload_step lem :=
  match goal with
  | |- rbind ?c _ = inl _ -> _ =>
      let E := fresh "E" in
      destruct c eqn:E; cbn [rbind];
      [intros [= <-]; by eapply lem|]
  end.

Lemma validate_response_error (data : json) (e : exn) :
  validate_response data = inl e -> payload_error e = true.
Proof.
  assert (Hk : forall keys, validate_keys data keys = inl e ->
                            payload_error e = true).
  { induction keys as [|k keys IH]; [discriminate|]. cbn [validate_keys].
    payload_step py_getitem_error. payload_step py_contains_error.
    destruct (negb _); [by intros [= <-]|exact IH]. }
  unfold validate_response. payload_step py_contains_error.
  destruct (negb _); [by intros [= <-]|apply Hk].
Qed.

(** The validator raises nothing that an [except RequestException] clause
    would take. *)
Lemma validate_response_not_request (data : json) (e : exn) :
  validate_response data = inl e -> is_RequestException e = false.
Proof. intros H. apply validate_response_error in H. by destruct e. Qed.

Lemma build_rows_error (city : string) (daily_data dates : json)
    (idx : list nat) (e : exn) :
  build_rows city daily_data dates idx = inl e -> payload_error e = true.
Proof.
  induction idx as [|i idx IH]; [discriminate|]. cbn [build_rows].
  payload_step py_getindex_error.
  do 3 (payload_step py_getitem_error; payload_step py_getindex_error).
  destruct (build_rows _ _ _ idx); cbn [rbind]; [|discriminate].
  intros [= <-]. by apply IH.
Qed.

Lemma extract_rows_error (city : string) (data : json) (e : exn) :
  extract_rows city data = inl e -> payload_error e = true.
Proof.
  unfold extract_rows. do 2 payload_step py_getitem_error.
  payload_step py_len_error. apply build_rows_error.
Qed.

Lemma validate_keys_object (m dm : gmap string json) (keys : list string) :
  m !! "daily" = Some (JObj dm) ->
  validate_keys (JObj m) keys =
    match first_missing dm keys with
    | Some k => inl (RuntimeError (msg_missing k))
    | None => inr tt
    end.
Proof.
  intros Hd. induction keys as [|k keys IH]; [reflexivity|].
  cbn [validate_keys py_getitem rbind]. rewrite Hd. cbn [py_contains rbind].
  unfold first_missing. cbn [find].
  destruct (bool_decide (is_Some (dm !! k))); cbn [negb]; [exact IH|reflexivity].
Qed.

Lemma first_missing_Some (dm : gmap string json) (keys : list string) (k : string) :
  first_missing dm keys = Some k <->
  exists pre post, keys = (pre ++ k :: post)%list /\ dm !! k = None
                   /\ Forall (fun k' => is_Some (dm !! k')) pre.
Proof.
  unfold first_missing. induction keys as [|a keys IH]; cbn [find].
  - split; [discriminate|]. intros (pre & post & H & _). by destruct pre.
  - destruct (bool_decide_reflect (is_Some (dm !! a))) as [Ha|Ha]; cbn [negb].
    + rewrite IH. split.
      * intros (pre & post & -> & Hk & Hpre). exists (a :: pre), post.
        split; [reflexivity|]. split; [done|]. by constructor.
      * intros (pre & post & Heq & Hk & Hpre). destruct pre as [|b pre].
        -- injection Heq as -> _. rewrite Hk in Ha. by destruct Ha.
        -- injection Heq as -> ->. exists pre, post. split; [reflexivity|].
           split; [done|]. by inversion Hpre.
    + split.
      * intros [= ->]. exists [], keys. split; [reflexivity|].
        split; [|constructor]. destruct (dm !! k) eqn:E; [|done].
        exfalso. apply Ha. by eexists.
      * intros (pre & post & Heq & Hk & Hpre). destruct pre as [|b pre].
        -- by injection Heq as -> _.
        -- injection Heq as -> _. inversion Hpre; subst. contradiction.
Qed.

Lemma first_missing_None (dm : gmap string json) (keys : list string) :
  first_missing dm keys = None <-> Forall (fun k => is_Some (dm !! k)) keys.
Proof.
  unfold first_missing. induction keys as [|a keys IH]; cbn [find].
  - split; [constructor|done].
  - destruct (bool_decide_reflect (is_Some (dm !! a))) as [Ha|Ha]; cbn [negb].
    + rewrite IH. split; [by constructor|by inversion 1].
    + split; [discriminate|]. inversion 1; subst. contradiction.
Qed.

(** C6, as amended. For every payload that is a JSON object whose [daily]
    entry, when there is one, is itself a JSON object: [validate_response]
    returns silently if and only if the payload has a [daily] object holding
    a key for each of [VARIABLES]; without a [daily] entry it fails with the
    error about [daily]; otherwise it fails with the error naming the first
    key of [VARIABLES], in their declared order, that [daily] lacks. *)
Theorem validate_response_spec (m : gmap string json) :
  (forall v, m !! "daily" = Some v -> exists dm, v = JObj dm) ->
  (validate_response (JObj m) = inr tt <->
     exists dm, m !! "daily" = Some (JObj dm)
                /\ Forall (fun k => is_Some (dm !! k)) VARIABLES)
  /\ (m !! "daily" = None ->
      validate_response (JObj m) = inl (RuntimeError msg_no_daily))
  /\ (forall dm pre k post,
        m !! "daily" = Some (JObj dm) ->
        VARIABLES = (pre ++ k :: post)%list ->
        Forall (fun k' => is_Some (dm !! k')) pre ->
        dm !! k = None ->
        validate_response (JObj m) = inl (RuntimeError (msg_missing k))).
Proof.
  intros Hshape.
  assert (Hnone : m !! "daily" = None ->
                  validate_response (JObj m) = inl (RuntimeError msg_no_daily)).
  { intros E. unfold validate_response. cbn [py_contains rbind].
    rewrite bool_decide_eq_false_2; [reflexivity|]. rewrite E. by intros [? ?]. }
  assert (Hsome : forall dm, m !! "daily" = Some (JObj dm) ->
            validate_response (JObj m) =
              match first_missing dm VARIABLES with
              | Some k => inl (RuntimeError (msg_missing k))
              | None => inr tt
              end).
  { intros dm E. unfold validate_response. cbn [py_contains rbind].
    rewrite bool_decide_eq_true_2; [|rewrite E; by eexists].
    cbn [negb]. by apply validate_keys_object. }
  split; [|split].
  - split.
    + intros Hok. destruct (m !! "daily") as [v|] eqn:E.
      * destruct (Hshape v eq_refl) as [dm ->]. exists dm. split; [reflexivity|].
        apply first_missing_None. rewrite (Hsome dm eq_refl) in Hok.
        by destruct (first_missing dm VARIABLES).
      * rewrite (Hnone eq_refl) in Hok. discriminate.
    + intros (dm & E & Hall). rewrite (Hsome dm E).
      apply first_missing_None in Hall. by rewrite Hall.
  - exact Hnone.
  - intros dm pre k post E Hv Hpre Hk. rewrite (Hsome dm E).
    assert (first_missing dm VARIABLES = Some k) as ->; [|reflexivity].
    apply first_missing_Some. by exists pre, post.
Qed.

Lemma validate_response_spec_witness :
  validate_response (JObj payload_without_temperature)
  = inl (RuntimeError
      "Falta la clave esperada 'temperature_2m_mean' en la respuesta de la API.").
Proof.
  assert (Hshape : forall v, payload_without_temperature !! "daily" = Some v ->
                             exists dm, v = JObj dm).
  { intros v. unfold payload_without_temperature. rewrite lookup_singleton_eq.
    intros [= <-]. by eexists. }
  destruct (validate_response_spec payload_without_temperature Hshape)
    as (_ & _ & H).
  apply (H {[ "date" := JArr []; "precipitation_sum" := JArr [];
              "wind_speed_10m_max" := JArr [] ]} [] "temperature_2m_mean"
           ["precipitation_sum"; "wind_speed_10m_max"]).
  - reflexivity.
  - reflexivity.
  - constructor.
  - vm_compute. reflexivity.
Defined.

(** C6, as stated, fails where [daily] is not a JSON object: with a number
    under [daily] the validator neither returns silently nor fails with an
    error naming a missing key; it raises [TypeError]. *)
Lemma validate_response_daily_number :
  validate_response (JObj {[ "daily" := JNum 5 ]}) = inl TypeError
  /\ validate_response (JObj {[ "daily" := JNum 5 ]}) <> inr tt
  /\ forall msg, validate_response (JObj {[ "daily" := JNum 5 ]})
                 <> inl (RuntimeError msg).
Proof.
  assert (H : validate_response (JObj {[ "daily" := JNum 5 ]}) = inl TypeError)
    by (vm_compute; reflexivity).
  rewrite H. split; [reflexivity|]. split; [discriminate|]. intros msg. discriminate.
Qed.

(** ** Calendar arithmetic *)

Lemma days_in_month_bounds (y m : Z) : 28 <= days_in_month y m <= 31.
Proof.
  unfold days_in_month.
  repeat match goal with
         | |- context [match ?x with _ => _ end] => destruct x
         end; lia.
Qed.

Lemma valid_date_spec (d : date) :
  valid_date d = true <->
  MINYEAR <= year d <= MAXYEAR /\ 1 <= month d <= 12
  /\ 1 <= day d <= days_in_month (year d) (month d).
Proof. unfold valid_date. rewrite !andb_true_iff, !Z.leb_le. tauto. Qed.

Lemma date_leb_month_index (a b : date) :
  1 <= month a <= 12 -> 1 <= month b <= 12 ->
  date_leb a b = true -> month_index a <= month_index b.
Proof.
  unfold date_leb, date_ltb, month_index. intros Ha Hb H.
  apply negb_true_iff in H.
  repeat (apply orb_false_iff in H as [? H] || apply andb_false_iff in H as [H|H]);
    rewrite ?Z.ltb_ge, ?Z.ltb_lt, ?Z.eqb_neq in *; lia.
Qed.

(** One day later is a valid date, and [31 * month_index + day] grows by at
    least one, [28 * month_index + day] by at most one. *)
Lemma tomorrow_progress (d d' : date) :
  valid_date d = true -> tomorrow d = inr d' ->
  valid_date d' = true
  /\ 31 * month_index d + day d + 1 <= 31 * month_index d' + day d'
  /\ 28 * month_index d' + day d' <= 28 * month_index d + day d + 1.
Proof.
  rewrite !valid_date_spec. unfold tomorrow, month_index, MINYEAR, MAXYEAR.
  intros (Hy & Hm & Hd).
  pose proof (days_in_month_bounds (year d) (month d)).
  destruct (Z.ltb_spec (day d) (days_in_month (year d) (month d))).
  { intros [= <-]. cbn. lia. }
  destruct (Z.ltb_spec (month d) 12).
  { intros [= <-]. cbn.
    pose proof (days_in_month_bounds (year d) (month d + 1)). lia. }
  destruct (Z.ltb_spec (year d) 9999); [|discriminate].
  intros [= <-]. cbn. lia.
Qed.

Lemma add_days_progress (n : nat) (d d' : date) :
  valid_date d = true -> add_days n d = inr d' ->
  valid_date d' = true
  /\ 31 * month_index d + day d + Z.of_nat n <= 31 * month_index d' + day d'
  /\ 28 * month_index d' + day d' <= 28 * month_index d + day d + Z.of_nat n.
Proof.
  revert d. induction n as [|n IH]; intros d Hv.
  - intros [= <-]. split; [done|]. lia.
  - cbn [add_days]. destruct (tomorrow d) as [e|d1] eqn:E; [discriminate|].
    cbn [rbind]. intros H.
    destruct (tomorrow_progress d d1 Hv E) as (Hv1 & H1 & H2).
    destruct (IH d1 Hv1 H) as (Hv' & H3 & H4). split; [done|]. lia.
Qed.

(** [tomorrow], [yesterday] and [add_days] are [timedelta] arithmetic: they
    move the ordinal by one day, by one day back and by [n] days. *)
Lemma days_before_year_succ (y : Z) :
  days_before_year (y + 1) = days_before_year y + (if is_leap y then 366 else 365).
Proof.
  unfold days_before_year, is_leap. replace (y + 1 - 1) with y by lia.
  destruct (Z.eqb_spec (y mod 4) 0), (Z.eqb_spec (y mod 100) 0),
    (Z.eqb_spec (y mod 400) 0); cbn [andb orb negb];
    Z.div_mod_to_equations; lia.
Qed.

Lemma days_before_month_succ (y m : Z) :
  1 <= m < 12 ->
  days_before_month y (m + 1) = days_before_month y m + days_in_month y m.
Proof.
  intros Hm.
  assert (m = 1 \/ m = 2 \/ m = 3 \/ m = 4 \/ m = 5 \/ m = 6 \/ m = 7
          \/ m = 8 \/ m = 9 \/ m = 10 \/ m = 11) as H by lia.
  unfold days_before_month, days_in_month.
  repeat (destruct H as [->|H] || subst m);
    destruct (is_leap y); vm_compute; reflexivity.
Qed.

Lemma days_before_month_bounds (y m : Z) :
  (m = 1 -> days_before_month y m = 0)
  /\ (m = 12 -> days_before_month y m = if is_leap y then 335 else 334).
Proof.
  unfold days_before_month.
  split; intros ->; destruct (is_leap y); vm_compute; reflexivity.
Qed.

Lemma tomorrow_toordinal (d d' : date) :
  valid_date d = true -> tomorrow d = inr d' -> toordinal d' = toordinal d + 1.
Proof.
  rewrite valid_date_spec. unfold tomorrow, toordinal, MINYEAR, MAXYEAR.
  intros (Hy & Hm & Hd).
  destruct (Z.ltb_spec (day d) (days_in_month (year d) (month d))).
  { intros [= <-]. cbn. lia. }
  destruct (Z.ltb_spec (month d) 12).
  { intros [= <-]. cbn. rewrite days_before_month_succ by lia. lia. }
  destruct (Z.ltb_spec (year d) 9999); [|discriminate].
  intros [= <-]. cbn [year month day]. rewrite days_before_year_succ.
  destruct (days_before_month_bounds (year d) (month d)) as [_ Hdec].
  destruct (days_before_month_bounds (year d + 1) 1) as [Hjan _].
  rewrite Hdec, Hjan by lia. unfold days_in_month in *.
  replace (month d) with 12 in * by lia.
  destruct (is_leap (year d)); lia.
Qed.

Lemma add_days_toordinal (n : nat) (d d' : date) :
  valid_date d = true -> add_days n d = inr d' ->
  toordinal d' = toordinal d + Z.of_nat n.
Proof.
  revert d. induction n as [|n IH]; intros d Hv.
  - intros [= <-]. lia.
  - cbn [add_days]. destruct (tomorrow d) as [e|d1] eqn:E; [discriminate|].
    cbn [rbind]. intros H. rewrite (IH d1); [|by eapply tomorrow_progress|done].
    rewrite (tomorrow_toordinal d d1 Hv E). lia.
Qed.

Lemma yesterday_toordinal (d d' : date) :
  valid_date d = true -> yesterday d = inr d' -> toordinal d' = toordinal d - 1.
Proof.
  rewrite valid_date_spec. unfold yesterday, toordinal, MINYEAR, MAXYEAR.
  intros (Hy & Hm & Hd).
  destruct (Z.ltb_spec 1 (day d)).
  { intros [= <-]. cbn. lia. }
  destruct (Z.ltb_spec 1 (month d)).
  { intros [= <-]. cbn [year month day].
    pose proof (days_before_month_succ (year d) (month d - 1) ltac:(lia)) as Hs.
    replace (month d - 1 + 1) with (month d) in Hs by lia. lia. }
  destruct (Z.ltb_spec 1 (year d)); [|discriminate].
  intros [= <-]. cbn [year month day].
  pose proof (days_before_year_succ (year d - 1)) as Hs.
  replace (year d - 1 + 1) with (year d) in Hs by lia.
  destruct (days_before_month_bounds (year d) (month d)) as [Hjan _].
  destruct (days_before_month_bounds (year d - 1) 12) as [_ Hdec].
  rewrite Hdec, Hjan by lia. destruct (is_leap (year d - 1)); lia.
Qed.

(** [next_date] is the first day of a strictly later month, at most two
    months ahead. *)
Lemma next_date_of_later (d nd : date) :
  valid_date d = true -> next_date_of d = inr nd ->
  valid_date nd = true /\ day nd = 1
  /\ month_index d < month_index nd <= month_index d + 2.
Proof.
  unfold next_date_of. intros Hv.
  destruct (add_days 32 d) as [e|d'] eqn:E; [discriminate|].
  cbn [rbind]. intros [= <-].
  destruct (add_days_progress 32 d d' Hv E) as (Hv' & H1 & H2).
  apply valid_date_spec in Hv, Hv'.
  pose proof (days_in_month_bounds (year d) (month d)).
  pose proof (days_in_month_bounds (year d') (month d')).
  split.
  - apply valid_date_spec. cbn. lia.
  - unfold month_index in *. cbn. lia.
Qed.

(** Consecutive sub-ranges touch: the day after [next_date - 1 day] is
    [next_date]. *)
Lemma tomorrow_yesterday (d y : date) :
  valid_date d = true -> yesterday d = inr y -> tomorrow y = inr d.
Proof.
  destruct d as [yr mo dy]. rewrite valid_date_spec.
  unfold yesterday, tomorrow, MINYEAR, MAXYEAR. cbn [year month day].
  intros (Hy & Hm & Hd).
  destruct (Z.ltb_spec 1 dy).
  { intros [= <-]. cbn [year month day].
    destruct (Z.ltb_spec (dy - 1) (days_in_month yr mo)); [|lia].
    do 2 f_equal. lia. }
  destruct (Z.ltb_spec 1 mo).
  { intros [= <-]. cbn [year month day].
    rewrite Z.ltb_irrefl.
    destruct (Z.ltb_spec (mo - 1) 12); [|lia]. f_equal. f_equal; lia. }
  destruct (Z.ltb_spec 1 yr); [|discriminate].
  intros [= <-]. cbn [year month day].
  change (31 <? days_in_month (yr - 1) 12) with false.
  change (12 <? 12) with false. cbn iota.
  destruct (Z.ltb_spec (yr - 1) 9999); [|lia]. f_equal. f_equal; lia.
Qed.

(** From the first day of a month, [next_date] is the first day of the
    month that follows: the sub-range is that whole calendar month. *)
Lemma next_date_of_first_day (d nd : date) :
  valid_date d = true -> day d = 1 -> next_date_of d = inr nd ->
  month_index nd = month_index d + 1.
Proof.
  unfold next_date_of. intros Hv Hd.
  destruct (add_days 32 d) as [e|d'] eqn:E; [discriminate|].
  cbn [rbind]. intros [= <-].
  destruct (add_days_progress 32 d d' Hv E) as (Hv' & H1 & H2).
  apply valid_date_spec in Hv, Hv'.
  pose proof (days_in_month_bounds (year d') (month d')).
  unfold month_index in *. cbn. lia.
Qed.

(** From the 31st of a month, [next_date] skips the month that follows. *)
Lemma next_date_of_day_31 (d nd : date) :
  valid_date d = true -> day d = 31 -> next_date_of d = inr nd ->
  month_index nd = month_index d + 2.
Proof.
  unfold next_date_of. intros Hv Hd.
  destruct (add_days 32 d) as [e|d'] eqn:E; [discriminate|].
  cbn [rbind]. intros [= <-].
  destruct (add_days_progress 32 d d' Hv E) as (Hv' & H1 & H2).
  apply valid_date_spec in Hv, Hv'.
  pose proof (days_in_month_bounds (year d') (month d')).
  unfold month_index in *. cbn. lia.
Qed.

Lemma date_ltb_spec (a b : date) :
  date_ltb a b = true <->
  year a < year b
  \/ (year a = year b
      /\ (month a < month b \/ (month a = month b /\ day a < day b))).
Proof.
  unfold date_ltb.
  rewrite !orb_true_iff, !andb_true_iff, !Z.ltb_lt, !Z.eqb_eq,
    !orb_true_iff, !andb_true_iff, !Z.ltb_lt, !Z.eqb_eq. tauto.
Qed.

(** C2 on the code. When the start date is the 31st of a month and the end
    date is not before [next_date], the first sub-range does not stop at the
    end of the start date's month: it ends in the month that follows, the
    day before [next_date]. *)
Theorem first_subrange_overshoots (start_date end_date_dt next_date
    interval_end_date : date) :
  valid_date start_date = true ->
  day start_date = 31 ->
  next_date_of start_date = inr next_date ->
  interval_end_of next_date end_date_dt = inr interval_end_date ->
  date_leb next_date end_date_dt = true ->
  month_index interval_end_date = month_index start_date + 1
  /\ tomorrow interval_end_date = inr next_date.
Proof.
  intros Hv Hd Hn Hi Hle.
  destruct (next_date_of_later _ _ Hv Hn) as (Hvn & Hdn & _).
  pose proof (next_date_of_day_31 _ _ Hv Hd Hn) as Hmi.
  unfold interval_end_of in Hi.
  destruct (yesterday next_date) as [e|y] eqn:Ey; [discriminate|].
  cbn [rbind] in Hi. injection Hi as <-.
  pose proof (tomorrow_yesterday _ _ Hvn Ey) as Ht.
  assert (month_index y = month_index next_date - 1
          /\ date_ltb y next_date = true) as [Hy Hlt].
  { apply valid_date_spec in Hvn. unfold yesterday in Ey. rewrite Hdn in Ey.
    change (1 <? 1) with false in Ey. cbn iota in Ey.
    unfold MINYEAR in *.
    destruct (Z.ltb_spec 1 (month next_date)).
    - injection Ey as <-. split; [unfold month_index; cbn; lia|].
      apply date_ltb_spec. cbn. lia.
    - destruct (Z.ltb_spec 1 (year next_date)); [|discriminate].
      injection Ey as <-. split; [unfold month_index; cbn; lia|].
      apply date_ltb_spec. cbn. lia. }
  assert (date_min y end_date_dt = y) as ->.
  { unfold date_min. destruct (date_ltb end_date_dt y) eqn:E; [|reflexivity].
    exfalso. unfold date_leb in Hle. apply negb_true_iff in Hle.
    assert (date_ltb end_date_dt next_date = true); [|congruence].
    apply date_ltb_spec in E, Hlt. apply date_ltb_spec. lia. }
  split; [lia|done].
Qed.




(** Below the last supported year, 32 days can always be added. *)
Lemma add_days_defined (n : nat) (d : date) :
  valid_date d = true ->
  31 * month_index d + day d + 4 * Z.of_nat n < 31 * (MAXYEAR * 12 + 12) + 31 ->
  exists d', add_days n d = inr d'.
Proof.
  revert d. induction n as [|n IH]; intros d Hv Hb; [by eexists|].
  cbn [add_days].
  assert (exists d1, tomorrow d = inr d1
            /\ valid_date d1 = true
            /\ 31 * month_index d1 + day d1 <= 31 * month_index d + day d + 4)
    as (d1 & E & Hv1 & H1).
  { pose proof Hv as Hv0. apply valid_date_spec in Hv.
    pose proof (days_in_month_bounds (year d) (month d)).
    unfold tomorrow, month_index, MAXYEAR, MINYEAR in *.
    destruct (Z.ltb_spec (day d) (days_in_month (year d) (month d))).
    { eexists. split; [reflexivity|]. split; [|cbn; lia].
      apply valid_date_spec. cbn. unfold MAXYEAR, MINYEAR. lia. }
    destruct (Z.ltb_spec (month d) 12).
    { eexists. split; [reflexivity|]. split; [|cbn; lia].
      apply valid_date_spec. cbn. unfold MAXYEAR, MINYEAR.
      pose proof (days_in_month_bounds (year d) (month d + 1)). lia. }
    destruct (Z.ltb_spec (year d) 9999); [|lia].
    eexists. split; [reflexivity|]. split; [|cbn; lia].
    apply valid_date_spec. cbn. unfold MAXYEAR, MINYEAR. lia. }
  rewrite E. cbn [rbind]. apply IH; [done|]. lia.
Qed.

Lemma next_date_of_defined (d : date) :
  valid_date d = true -> year d < MAXYEAR -> exists nd, next_date_of d = inr nd.
Proof.
  intros Hv Hy. unfold next_date_of.
  destruct (add_days_defined 32 d Hv) as [d' ->]; [|by eexists].
  apply valid_date_spec in Hv.
  pose proof (days_in_month_bounds (year d) (month d)).
  unfold month_index, MAXYEAR in *. lia.
Qed.

(** The day before the first of a month later than some valid date exists. *)
Lemma interval_end_of_defined (nd end_ : date) :
  MINYEAR * 12 + 1 < month_index nd -> 1 <= month nd <= 12 ->
  exists ie, interval_end_of nd end_ = inr ie.
Proof.
  unfold interval_end_of, yesterday, month_index, MINYEAR. intros H Hm.
  destruct (1 <? day nd); [by eexists|].
  destruct (Z.ltb_spec 1 (month nd)); [by eexists|].
  destruct (Z.ltb_spec 1 (year nd)); [by eexists|]. lia.
Qed.

(** ** The fetcher *)

Section PipelineProofs.

Variable World : Type.
Variable requests_get : string -> params -> World -> (request_error + response) * World.

Lemma attempt_failure (city : string) (p : params) (w w' : World)
    (o : request_error + response) (tr : list event) :
  requests_get API_URL p w = (o, w') -> is_failure o = true ->
  attempt World requests_get city p (mkstate w tr)
  = (inl (RequestException (failure_error o)),
     mkstate w' (tr ++ [EGet API_URL p])%list).
Proof.
  intros Hget Hf. unfold attempt, bind, http_get. cbn [world trace]. rewrite Hget.
  destruct o as [e|r]; [reflexivity|].
  cbn in Hf. unfold lift, raise_for_status. rewrite Hf. reflexivity.
Qed.

Lemma attempt_response (city : string) (p : params) (w w' : World)
    (r : response) (tr : list event) :
  requests_get API_URL p w = (inr r, w') -> is_failure (inr r) = false ->
  attempt World requests_get city p (mkstate w tr)
  = (rbind (validate_response (body r)) (fun _ => extract_rows city (body r)),
     mkstate w' (tr ++ [EGet API_URL p])%list).
Proof.
  intros Hget Hf. unfold attempt, bind, http_get. cbn [world trace]. rewrite Hget.
  cbn in Hf. unfold lift, raise_for_status. rewrite Hf.
  destruct (validate_response (body r)); reflexivity.
Qed.

(** A failed attempt is logged, followed by a five-second sleep, and the
    loop goes round again with one retry more. *)
Lemma retry_loop_failure (budget retries : nat) (city : string) (p : params)
    (w w' : World) (o : request_error + response) (tr : list event) :
  requests_get API_URL p w = (o, w') -> is_failure o = true ->
  retry_loop World requests_get (S budget) retries city p (mkstate w tr)
  = retry_loop World requests_get budget (S retries) city p
      (mkstate w' (tr ++ retry_events p [o] retries)%list).
Proof.
  intros Hget Hf. cbn [retry_loop]. unfold catch at 1.
  rewrite (attempt_failure city p w w' o tr Hget Hf).
  cbn [is_RequestException]. unfold bind, logging, sleep, emit. cbn [world trace].
  cbn [retry_events]. by rewrite <- !app_assoc.
Qed.

Lemma retry_loop_failures (os : list (request_error + response))
    (budget retries : nat) (city : string) (p : params) (w w' : World)
    (tr : list event) :
  responds World requests_get p w os w' -> forallb is_failure os = true ->
  retry_loop World requests_get (length os + budget) retries city p (mkstate w tr)
  = retry_loop World requests_get budget (retries + length os) city p
      (mkstate w' (tr ++ retry_events p os retries)%list).
Proof.
  intros Hres. revert retries tr.
  induction Hres as [w|w o w1 os w' Hget Hres IH]; intros retries tr Hall.
  - cbn. by rewrite Nat.add_0_r, app_nil_r.
  - cbn in Hall. apply andb_true_iff in Hall as [Hf Hall].
    cbn [length Nat.add].
    rewrite (retry_loop_failure _ retries city p w w1 o tr Hget Hf).
    rewrite IH by done. cbn [retry_events].
    rewrite <- app_assoc. cbn [app].
    by replace (retries + S (length os))%nat with (S retries + length os)%nat by lia.
Qed.

(** An exception of the [try] block that is no [RequestException] leaves
    the function at once: neither [except] clause takes it. *)
Lemma retry_loop_escape (budget retries : nat) (city : string) (p : params)
    (st st' : state World) (e : exn) :
  attempt World requests_get city p st = (inl e, st') ->
  is_RequestException e = false ->
  retry_loop World requests_get (S budget) retries city p st = (inl e, st').
Proof.
  intros Ha He. cbn [retry_loop]. unfold catch. rewrite Ha, He.
  destruct e; try reflexivity. discriminate.
Qed.

Lemma retry_loop_return (budget retries : nat) (city : string) (p : params)
    (st st' : state World) (rows : list record) :
  attempt World requests_get city p st = (inr rows, st') ->
  retry_loop World requests_get (S budget) retries city p st = (inr rows, st').
Proof. intros Ha. cbn [retry_loop]. unfold catch. by rewrite Ha. Qed.

Lemma fetch_data_interval_unfold (city : string) (latitude longitude : Q)
    (start_date end_date : date) :
  fetch_data_interval World requests_get city latitude longitude start_date end_date
  = retry_loop World requests_get MAX_RETRIES 0 city
      (params_of latitude longitude start_date end_date).
Proof. reflexivity. Qed.

Lemma retry_events_gets (p : params) (os : list (request_error + response))
    (retries : nat) :
  length (filter (fun ev => is_get ev = true) (retry_events p os retries)) = length os.
Proof.
  revert retries. induction os as [|o os IH]; intros retries; [reflexivity|].
  cbn [retry_events]. rewrite filter_cons_True by reflexivity.
  rewrite filter_cons_False by (cbn; discriminate).
  rewrite filter_cons_False by (cbn; discriminate).
  cbn [length]. by rewrite IH.
Qed.

Lemma retry_events_sleeps (p : params) (os : list (request_error + response))
    (retries : nat) :
  filter (fun ev => is_sleep ev = true) (retry_events p os retries)
  = replicate (length os) (ESleep 5).
Proof.
  revert retries. induction os as [|o os IH]; intros retries; [reflexivity|].
  cbn [retry_events]. rewrite filter_cons_False by (cbn; discriminate).
  rewrite filter_cons_False by (cbn; discriminate).
  rewrite filter_cons_True by reflexivity.
  cbn [length replicate]. by rewrite IH.
Qed.

(** C3. If every attempt fails at the transport level (the call raises, or
    the response has an error status), [fetch_data_interval] makes exactly
    [MAX_RETRIES] = 5 requests, sleeps 5 seconds after each of them, and
    then raises the [RuntimeError] that says the data could not be obtained
    after 5 attempts. *)
Theorem fetch_data_interval_exhausts_retries (city : string)
    (latitude longitude : Q) (start_date end_date : date)
    (os : list (request_error + response)) (w w' : World) (tr : list event) :
  let p := params_of latitude longitude start_date end_date in
  responds World requests_get p w os w' ->
  length os = MAX_RETRIES ->
  forallb is_failure os = true ->
  exists tr',
    fetch_data_interval World requests_get city latitude longitude
      start_date end_date (mkstate w tr)
    = (inl (RuntimeError "No se pudo obtener datos después de 5 intentos."),
       mkstate w' (tr ++ tr')%list)
    /\ tr' = retry_events p os 0
    /\ length (filter (fun ev => is_get ev = true) tr') = 5%nat
    /\ filter (fun ev => is_sleep ev = true) tr' = replicate 5 (ESleep 5).
Proof.
  intros p Hres Hlen Hall. exists (retry_events p os 0).
  rewrite retry_events_gets, retry_events_sleeps, Hlen.
  split; [|done].
  rewrite fetch_data_interval_unfold. fold p.
  replace MAX_RETRIES with (length os + 0)%nat by lia.
  by rewrite (retry_loop_failures os 0 0 city p w w' tr Hres Hall).
Qed.

(** C1 on the code. A response with status 404 does not end the call: the
    [HTTPError] of [raise_for_status] is taken by the [except
    RequestException] clause, so the code logs a warning, sleeps five
    seconds and goes round the loop again, with four attempts left. *)
Theorem fetch_data_interval_not_found_is_retried (city : string)
    (latitude longitude : Q) (start_date end_date : date)
    (r : response) (w w' : World) (tr : list event) :
  let p := params_of latitude longitude start_date end_date in
  requests_get API_URL p w = (inr r, w') ->
  status_code r = 404 ->
  fetch_data_interval World requests_get city latitude longitude
    start_date end_date (mkstate w tr)
  = retry_loop World requests_get 4 1 city p
      (mkstate w' (tr ++ [EGet API_URL p;
                          ELog WARNING
                            (MsgRetry (RequestException (HTTPError 404)) 1 5);
                          ESleep 5])%list).
Proof.
  intros p Hget Hst. rewrite fetch_data_interval_unfold. fold p.
  change MAX_RETRIES with 5%nat.
  rewrite (retry_loop_failure 4 0 city p w w' (inr r) tr Hget).
  - cbn [retry_events failure_error]. by rewrite Hst.
  - cbn [is_failure]. by rewrite Hst.
Qed.

(** C7. If the first response has a 2xx status and its payload fails
    validation, [fetch_data_interval] raises the validator's error on that
    attempt: the trace gains the one request and nothing else, so there is
    no retry and no sleep. *)
Theorem fetch_data_interval_malformed_not_retried (city : string)
    (latitude longitude : Q) (start_date end_date : date)
    (r : response) (e : exn) (w w' : World) (tr : list event) :
  let p := params_of latitude longitude start_date end_date in
  requests_get API_URL p w = (inr r, w') ->
  200 <= status_code r < 300 ->
  validate_response (body r) = inl e ->
  fetch_data_interval World requests_get city latitude longitude
    start_date end_date (mkstate w tr)
  = (inl e, mkstate w' (tr ++ [EGet API_URL p])%list).
Proof.
  intros p Hget Hst Hval. rewrite fetch_data_interval_unfold. fold p.
  apply retry_loop_escape; [|by eapply validate_response_not_request].
  rewrite (attempt_response city p w w' r tr Hget).
  - by rewrite Hval.
  - cbn. apply andb_false_iff. left. apply Z.leb_gt. lia.
Qed.

Lemma build_rows_seq (city : string) (dm : gmap string json)
    (dates tcol pcol wcol : list json) :
  dm !! "temperature_2m_mean" = Some (JArr tcol) ->
  dm !! "precipitation_sum" = Some (JArr pcol) ->
  dm !! "wind_speed_10m_max" = Some (JArr wcol) ->
  length tcol = length dates ->
  length pcol = length dates ->
  length wcol = length dates ->
  forall n a, (a + n <= length dates)%nat ->
  exists rows,
    build_rows city (JObj dm) (JArr dates) (seq a n) = inr rows
    /\ length rows = n
    /\ forall j d t p w,
         dates !! (a + j)%nat = Some d -> tcol !! (a + j)%nat = Some t ->
         pcol !! (a + j)%nat = Some p -> wcol !! (a + j)%nat = Some w ->
         (j < n)%nat ->
         rows !! j = Some (mkrecord city d t p w).
Proof.
  intros Ht Hp Hw Lt Lp Lw. induction n as [|n IH]; intros a Hle.
  - exists []. split; [reflexivity|]. split; [reflexivity|]. intros; lia.
  - cbn [seq build_rows py_getindex py_getitem rbind].
    destruct (lookup_lt_is_Some_2 dates a) as [d Hd]; [lia|].
    destruct (lookup_lt_is_Some_2 tcol a) as [t Ht']; [lia|].
    destruct (lookup_lt_is_Some_2 pcol a) as [p Hp']; [lia|].
    destruct (lookup_lt_is_Some_2 wcol a) as [w0 Hw']; [lia|].
    do 4 (cbn [py_getindex py_getitem rbind];
          rewrite ?Hd, ?Ht, ?Ht', ?Hp, ?Hp', ?Hw, ?Hw').
    cbn [rbind].
    destruct (IH (S a)) as (rows & -> & Hlen & Hrows); [lia|]. cbn [rbind].
    exists (mkrecord city d t p w0 :: rows). split; [reflexivity|].
    split; [cbn; lia|].
    intros [|j] d1 t1 p1 w1 H1 H2 H3 H4 Hj.
    + rewrite Nat.add_0_r in *. cbn. congruence.
    + cbn. apply Hrows; [| | | |lia];
        by replace (S a + j)%nat with (a + S j)%nat by lia.
Qed.

(** C5. For a payload whose [daily] object holds a [date] array and three
    per-variable arrays of the same length, returned with a non-error status
    after fewer than [MAX_RETRIES] failed attempts, [fetch_data_interval]
    returns one record per date: record [i] carries the city, [dates[i]]
    and the values at index [i] of the three arrays. *)
Theorem fetch_data_interval_rows (city : string)
    (latitude longitude : Q) (start_date end_date : date)
    (fails : list (request_error + response)) (r : response)
    (m dm : gmap string json) (dates tcol pcol wcol : list json)
    (w w' : World) (tr : list event) :
  let p := params_of latitude longitude start_date end_date in
  responds World requests_get p w (fails ++ [inr r])%list w' ->
  forallb is_failure fails = true ->
  (length fails < MAX_RETRIES)%nat ->
  is_failure (inr r) = false ->
  body r = JObj m ->
  m !! "daily" = Some (JObj dm) ->
  dm !! "date" = Some (JArr dates) ->
  dm !! "temperature_2m_mean" = Some (JArr tcol) ->
  dm !! "precipitation_sum" = Some (JArr pcol) ->
  dm !! "wind_speed_10m_max" = Some (JArr wcol) ->
  length tcol = length dates ->
  length pcol = length dates ->
  length wcol = length dates ->
  exists rows tr',
    fetch_data_interval World requests_get city latitude longitude
      start_date end_date (mkstate w tr)
    = (inr rows, mkstate w' (tr ++ tr')%list)
    /\ length rows = length dates
    /\ forall i d t pr ws,
         dates !! i = Some d -> tcol !! i = Some t ->
         pcol !! i = Some pr -> wcol !! i = Some ws ->
         rows !! i = Some (mkrecord city d t pr ws).
Proof.
  intros p Hres Hall Hlen Hok Hbody Hdaily Hdate Ht Hp Hw Lt Lp Lw.
  assert (exists w1, responds World requests_get p w fails w1
                     /\ requests_get API_URL p w1 = (inr r, w'))
    as (w1 & Hfails & Hget).
  { clear -Hres. revert w Hres. induction fails as [|o fails IH]; intros w Hres.
    - inversion Hres as [|? ? ? ? ? Hg Hrest]; subst.
      inversion Hrest; subst. exists w. split; [constructor|done].
    - inversion Hres as [|? ? w2 ? ? Hg Hrest]; subst.
      destruct (IH _ Hrest) as (w1 & H1 & H2).
      exists w1. split; [by econstructor|done]. }
  destruct (build_rows_seq city dm dates tcol pcol wcol Ht Hp Hw Lt Lp Lw
              (length dates) 0%nat) as (rows & Hrows & Hl & Hnth); [lia|].
  exists rows, (retry_events p fails 0 ++ [EGet API_URL p])%list.
  split; [|split; [done|]].
  - rewrite fetch_data_interval_unfold. fold p.
    replace MAX_RETRIES
      with (length fails + S (MAX_RETRIES - length fails - 1))%nat by lia.
    rewrite (retry_loop_failures fails _ 0 city p w w1 tr Hfails Hall).
    rewrite app_assoc. apply retry_loop_return.
    rewrite (attempt_response city p w1 w' r _ Hget Hok). f_equal.
    rewrite Hbody.
    assert (validate_response (JObj m) = inr tt) as ->.
    { unfold validate_response. cbn [py_contains rbind].
      rewrite bool_decide_eq_true_2 by (rewrite Hdaily; by eexists).
      cbn [negb]. rewrite (validate_keys_object m dm VARIABLES Hdaily).
      unfold first_missing, VARIABLES. cbn [find].
      rewrite !bool_decide_eq_true_2; [reflexivity| | |];
        match goal with |- is_Some ?x => by (rewrite ?Ht, ?Hp, ?Hw; eexists) end. }
    cbn [rbind]. unfold extract_rows. cbn [py_getitem rbind].
    rewrite Hdaily. cbn [py_getitem rbind]. rewrite Hdate. cbn [py_len rbind].
    exact Hrows.
  - intros i d t pr ws H1 H2 H3 H4. apply (Hnth i d t pr ws); try done.
    by eapply lookup_lt_Some.
Qed.

(** *** Which exceptions leave the fetcher *)

Lemma attempt_error (city : string) (p : params) (st st' : state World)
    (e : exn) :
  attempt World requests_get city p st = (inl e, st') ->
  is_RequestException e = true \/ payload_error e = true.
Proof.
  unfold attempt, bind, http_get, lift.
  destruct (requests_get API_URL p (world st)) as [[e1|r] w1].
  { intros [= <- _]. by left. }
  destruct (raise_for_status r) as [e1|[]] eqn:E1.
  { intros [= <- _]. unfold raise_for_status in E1.
    destruct (_ && _); [|discriminate]. injection E1 as <-. by left. }
  destruct (validate_response (body r)) as [e1|[]] eqn:E2.
  { intros [= <- _]. right. by eapply validate_response_error. }
  destruct (extract_rows city (body r)) as [e1|rows] eqn:E3; [|discriminate].
  intros [= <- _]. right. by eapply extract_rows_error.
Qed.

Lemma retry_loop_error (budget retries : nat) (city : string) (p : params)
    (st st' : state World) (e : exn) :
  retry_loop World requests_get budget retries city p st = (inl e, st') ->
  payload_error e = true.
Proof.
  revert retries st. induction budget as [|budget IH]; intros retries st.
  { by intros [= <- _]. }
  cbn [retry_loop]. unfold catch at 1.
  destruct (attempt World requests_get city p st) as [[e1|rows] st1] eqn:Ha;
    [|discriminate].
  destruct (attempt_error city p st st1 e1 Ha) as [Hr|Hp].
  - rewrite Hr. unfold bind, logging, sleep, emit. apply IH.
  - destruct e1; try discriminate; cbn; by intros [= <- _].
Qed.

(** The second [except] clause is never entered: whatever it would take,
    the first one has taken already. *)
Lemma http_error_clause_unreachable (e : exn) :
  is_HTTPError e = true -> is_RequestException e = true.
Proof. by destruct e as [| | | | | |[]|]. Qed.

(** ** The assembler *)

Section AssemblerProofs.

Variable fetcher : string -> Q -> Q -> date -> date -> M World (list record).

Lemma fetch_round_ok (city : string) (latitude longitude : Q)
    (current_date interval_end_date : date) (all_data rows : list record)
    (st st' : state World) :
  fetcher city latitude longitude current_date interval_end_date
    (record_event st (ELog INFO (MsgInterval city current_date interval_end_date)))
  = (inr rows, st') ->
  fetch_round World fetcher city latitude longitude current_date
    interval_end_date all_data st
  = (inr (all_data ++ rows)%list, record_event st' (ESleep 1)).
Proof.
  intros H. unfold fetch_round, finally, catch, bind, logging, sleep, emit, ret.
  unfold record_event in H. by rewrite H.
Qed.

(** A [RuntimeError] of the fetcher is caught and logged, the sub-range is
    skipped, and the pause is taken. *)
Lemma fetch_round_runtime_error (city : string) (latitude longitude : Q)
    (current_date interval_end_date : date) (all_data : list record)
    (e : exn) (st st' : state World) :
  fetcher city latitude longitude current_date interval_end_date
    (record_event st (ELog INFO (MsgInterval city current_date interval_end_date)))
  = (inl e, st') ->
  is_RuntimeError e = true ->
  fetch_round World fetcher city latitude longitude current_date
    interval_end_date all_data st
  = (inr all_data,
     record_event (record_event st' (ELog ERROR (MsgException e))) (ESleep 1)).
Proof.
  intros H He. unfold fetch_round, finally, catch, bind, logging, sleep, emit, ret.
  unfold record_event in H. by rewrite H, He.
Qed.

(** Any other exception of the fetcher goes through, after the pause of
    the [finally] clause. *)
Lemma fetch_round_other_error (city : string) (latitude longitude : Q)
    (current_date interval_end_date : date) (all_data : list record)
    (e : exn) (st st' : state World) :
  fetcher city latitude longitude current_date interval_end_date
    (record_event st (ELog INFO (MsgInterval city current_date interval_end_date)))
  = (inl e, st') ->
  is_RuntimeError e = false ->
  fetch_round World fetcher city latitude longitude current_date
    interval_end_date all_data st
  = (inl e, record_event st' (ESleep 1)).
Proof.
  intros H He. unfold fetch_round, finally, catch, bind, logging, sleep, emit, raise.
  unfold record_event in H. by rewrite H, He.
Qed.

(** What [fetch_round] raises is an exception of the fetcher that is no
    [RuntimeError]. *)
Lemma fetch_round_error (city : string) (latitude longitude : Q)
    (current_date interval_end_date : date) (all_data : list record)
    (e : exn) (st st' : state World) :
  fetch_round World fetcher city latitude longitude current_date
    interval_end_date all_data st = (inl e, st') ->
  is_RuntimeError e = false
  /\ exists st1 st2, fetcher city latitude longitude current_date
                       interval_end_date st1 = (inl e, st2).
Proof.
  destruct (fetcher city latitude longitude current_date interval_end_date
    (record_event st (ELog INFO (MsgInterval city current_date interval_end_date))))
    as [[e1|rows] st1] eqn:Hf.
  - destruct (is_RuntimeError e1) eqn:He.
    + by rewrite (fetch_round_runtime_error _ _ _ _ _ _ _ _ _ Hf He).
    + rewrite (fetch_round_other_error _ _ _ _ _ _ _ _ _ Hf He).
      intros [= <- _]. split; [done|]. by eexists _, _.
  - by rewrite (fetch_round_ok _ _ _ _ _ _ _ _ _ Hf).
Qed.

Lemma date_leb_year (a b : date) : date_leb a b = true -> year a <= year b.
Proof.
  unfold date_leb, date_ltb. intros H. apply negb_true_iff in H.
  apply orb_false_iff in H as [H _]. by apply Z.ltb_ge in H.
Qed.

(** One round of the loop: an exception leaves it, or it goes on from the
    first day of a strictly later month. *)
Lemma months_loop_step (fuel : nat) (city : string) (latitude longitude : Q)
    (end_date_dt current_date : date) (all_data : list record)
    (st : state World) :
  valid_date current_date = true ->
  date_leb current_date end_date_dt = true ->
  (exists e st',
     months_loop World fetcher (S fuel) city latitude longitude end_date_dt
       current_date all_data st = Some (inl e, st'))
  \/ (exists next_date all_data' st',
        valid_date next_date = true /\ day next_date = 1
        /\ month_index current_date < month_index next_date
        /\ months_loop World fetcher (S fuel) city latitude longitude
             end_date_dt current_date all_data st
           = months_loop World fetcher fuel city latitude longitude
               end_date_dt next_date all_data' st').
Proof.
  intros Hv Hle. cbn [months_loop]. rewrite Hle.
  destruct (next_date_of current_date) as [e|nd] eqn:En; [left; by eexists _, _|].
  destruct (interval_end_of nd end_date_dt) as [e|ie]; [left; by eexists _, _|].
  destruct (fetch_round _ _ _ _ _ _ _ _ _) as [[e|all'] st'];
    [left; by eexists _, _|].
  right. destruct (next_date_of_later _ _ Hv En) as (Hv' & Hd & Hm & _).
  by exists nd, all', st'.
Qed.

Lemma months_loop_defined (fuel : nat) (city : string) (latitude longitude : Q)
    (end_date_dt current_date : date) (all_data : list record)
    (st : state World) :
  valid_date current_date = true ->
  valid_date end_date_dt = true ->
  (enough_fuel end_date_dt current_date <= fuel)%nat ->
  exists r, months_loop World fetcher fuel city latitude longitude end_date_dt
              current_date all_data st = Some r.
Proof.
  intros Hv Hve. revert current_date all_data st Hv.
  induction fuel as [|fuel IH]; intros cur all_data st Hv Hfuel.
  { unfold enough_fuel in Hfuel. lia. }
  destruct (date_leb cur end_date_dt) eqn:Hle.
  - destruct (months_loop_step fuel city latitude longitude end_date_dt cur
                all_data st Hv Hle)
      as [(e & st' & ->)|(nd & all' & st' & Hv' & _ & Hm & ->)]; [by eexists|].
    apply IH; [done|]. unfold enough_fuel in *.
    apply valid_date_spec in Hv, Hve.
    pose proof (date_leb_month_index cur end_date_dt
                  ltac:(lia) ltac:(lia) Hle). lia.
  - cbn [months_loop]. rewrite Hle. by eexists.
Qed.

(** More fuel does not change a result. *)
Lemma months_loop_fuel_mono (fuel fuel' : nat) (city : string)
    (latitude longitude : Q) (end_date_dt current_date : date)
    (all_data : list record) (st : state World)
    (r : res (list record) * state World) :
  months_loop World fetcher fuel city latitude longitude end_date_dt
    current_date all_data st = Some r ->
  (fuel <= fuel')%nat ->
  months_loop World fetcher fuel' city latitude longitude end_date_dt
    current_date all_data st = Some r.
Proof.
  revert fuel' current_date all_data st.
  induction fuel as [|fuel IH]; intros fuel' cur all_data st; [discriminate|].
  intros H Hle. destruct fuel' as [|fuel']; [lia|].
  cbn [months_loop] in *. destruct (date_leb cur end_date_dt); [|done].
  destruct (next_date_of cur); [done|].
  destruct (interval_end_of _ end_date_dt); [done|].
  destruct (fetch_round _ _ _ _ _ _ _ _ _) as [[e|all'] st']; [done|].
  apply IH; [done|lia].
Qed.



Lemma months_loop_returns (fuel : nat) (city : string) (latitude longitude : Q)
    (end_date_dt current_date : date) (all_data : list record)
    (st : state World) :
  (forall c la lo a b st1 e st2,
     fetcher c la lo a b st1 = (inl e, st2) -> is_RuntimeError e = true) ->
  valid_date current_date = true ->
  valid_date end_date_dt = true ->
  year end_date_dt < MAXYEAR ->
  (enough_fuel end_date_dt current_date <= fuel)%nat ->
  exists rows st',
    months_loop World fetcher fuel city latitude longitude end_date_dt
      current_date all_data st = Some (inr rows, st').
Proof.
  intros Hf Hv Hve Hy Hfuel.
  destruct (months_loop_defined fuel city latitude longitude end_date_dt
              current_date all_data st Hv Hve Hfuel) as [[[e|rows] st'] Hr];
    [|by eexists _, _].
  exfalso. revert current_date all_data st Hv Hfuel Hr.
  induction fuel as [|fuel IH]; intros cur all_data st Hv Hfuel; [discriminate|].
  cbn [months_loop]. destruct (date_leb cur end_date_dt) eqn:Hle; [|discriminate].
  pose proof (date_leb_year _ _ Hle) as Hyc.
  destruct (next_date_of_defined cur Hv ltac:(lia)) as [nd En]. rewrite En.
  destruct (next_date_of_later _ _ Hv En) as (Hv' & Hd & Hm & _).
  pose proof Hv as Hv0. pose proof Hv' as Hv1. pose proof Hve as Hve0.
  apply valid_date_spec in Hv0, Hv1, Hve0.
  destruct (interval_end_of_defined nd end_date_dt) as [ie ->];
    [unfold month_index, MINYEAR in *; lia|lia|].
  destruct (fetch_round _ _ _ _ _ _ _ _ _) as [[e1|all'] st1] eqn:Er.
  - destruct (fetch_round_error _ _ _ _ _ _ _ _ _ Er) as (He & s1 & s2 & Hfe).
    apply Hf in Hfe. congruence.
  - apply IH; [done|]. unfold enough_fuel in *.
    pose proof (date_leb_month_index cur end_date_dt
                  ltac:(lia) ltac:(lia) Hle). lia.
Qed.

(** C4, as amended. For a supported city, the default interval and valid
    dates with the end date before the last supported year, if every
    exception the per-sub-range fetcher raises is a [RuntimeError], then
    [get_meteo_data] returns a dataset: each such error is caught and
    logged, the sub-range adds no rows, and the loop goes on after the
    one-second pause. *)
Theorem get_meteo_data_skips_runtime_errors (fuel : nat) (city : string)
    (start_date end_date : date) (st : state World) :
  (forall c la lo a b st1 e st2,
     fetcher c la lo a b st1 = (inl e, st2) -> is_RuntimeError e = true) ->
  is_Some (COORDINATES !! city) ->
  valid_date start_date = true ->
  valid_date end_date = true ->
  year end_date < MAXYEAR ->
  (enough_fuel end_date start_date <= fuel)%nat ->
  (exists rows st',
     get_meteo_data_with World fetcher fuel city start_date end_date "month" st
     = Some (inr rows, st'))
  /\ (forall la lo a b all_data e st1 st2,
        fetcher city la lo a b
          (record_event st1 (ELog INFO (MsgInterval city a b))) = (inl e, st2) ->
        fetch_round World fetcher city la lo a b all_data st1
        = (inr all_data,
           record_event (record_event st2 (ELog ERROR (MsgException e)))
             (ESleep 1))).
Proof.
  intros Hf [[la lo] Hc] Hv Hve Hy Hfuel. split.
  - unfold get_meteo_data_with. rewrite Hc. cbn [negb String.eqb].
    change (negb ("month" =? "month")%string) with false. cbn iota.
    by apply months_loop_returns.
  - intros la' lo' a b all_data e st1 st2 He.
    apply fetch_round_runtime_error; [done|]. by eapply Hf.
Qed.

End AssemblerProofs.

(** ** The entry point *)

(** C8. Whatever [main] does, an exception of class [Exception] that leaves
    it is caught by the guard, logged as an error, and the script completes
    with exit status 0. *)
Theorem dunder_main_catches (main : M World unit) (st st' : state World)
    (e : exn) :
  main st = (inl e, st') ->
  is_Exception e = true ->
  dunder_main World main st
  = (inr tt, record_event st' (ELog ERROR (MsgUnexpected e)))
  /\ exit_status (fst (dunder_main World main st)) = 0.
Proof.
  intros Hm He. unfold dunder_main, catch. rewrite Hm, He. by split.
Qed.

End PipelineProofs.

(** * Concrete runs *)

Lemma fetch_data_interval_exhausts_retries_witness :
  exists tr',
    fetch_data_interval nat (always (inl Timeout)) "Madrid" madrid_lat madrid_lon
      d_2020_01_01 d_2020_01_03 (mkstate 0%nat [])
    = (inl (RuntimeError "No se pudo obtener datos después de 5 intentos."),
       mkstate 5%nat ([] ++ tr')%list)
    /\ tr' = retry_events (params_of madrid_lat madrid_lon d_2020_01_01 d_2020_01_03)
               (replicate 5 (inl Timeout)) 0
    /\ length (filter (fun ev => is_get ev = true) tr') = 5%nat
    /\ filter (fun ev => is_sleep ev = true) tr' = replicate 5 (ESleep 5).
Proof.
  apply (fetch_data_interval_exhausts_retries nat (always (inl Timeout))
           "Madrid" madrid_lat madrid_lon d_2020_01_01 d_2020_01_03
           (replicate 5 (inl Timeout)) 0%nat 5%nat []).
  - repeat econstructor.
  - reflexivity.
  - reflexivity.
Defined.

Lemma fetch_data_interval_malformed_not_retried_witness :
  fetch_data_interval nat (always (inr (mkresponse 200 (JObj ∅)))) "Madrid"
    madrid_lat madrid_lon d_2020_01_01 d_2020_01_03 (mkstate 0%nat [])
  = (inl (RuntimeError "La respuesta de la API no contiene la clave 'daily'."),
     mkstate 1%nat
       ([] ++ [EGet API_URL
                 (params_of madrid_lat madrid_lon d_2020_01_01 d_2020_01_03)])%list).
Proof.
  apply (fetch_data_interval_malformed_not_retried nat
           (always (inr (mkresponse 200 (JObj ∅)))) "Madrid" madrid_lat madrid_lon
           d_2020_01_01 d_2020_01_03 (mkresponse 200 (JObj ∅))).
  - reflexivity.
  - cbn. lia.
  - reflexivity.
Defined.

Lemma fetch_data_interval_rows_witness :
  exists rows tr',
    fetch_data_interval _ scripted "Madrid" madrid_lat madrid_lon
      d_2020_01_01 d_2020_01_03 (mkstate [inl Timeout; inr MOCK_RESPONSE] [])
    = (inr rows, mkstate [] ([] ++ tr')%list)
    /\ length rows = 3%nat
    /\ forall i d t pr ws,
         [JStr "2020-01-01"; JStr "2020-01-02"; JStr "2020-01-03"] !! i = Some d ->
         [JNum 5; JNum 6; JNum 7] !! i = Some t ->
         [JNum 0; JNum (12 # 10); JNum (8 # 10)] !! i = Some pr ->
         [JNum 15; JNum 20; JNum 18] !! i = Some ws ->
         rows !! i = Some (mkrecord "Madrid" d t pr ws).
Proof.
  apply (fetch_data_interval_rows _ scripted
           "Madrid" madrid_lat madrid_lon d_2020_01_01 d_2020_01_03
           [inl Timeout] MOCK_RESPONSE mock_payload mock_daily
           [JStr "2020-01-01"; JStr "2020-01-02"; JStr "2020-01-03"]
           [JNum 5; JNum 6; JNum 7]
           [JNum 0; JNum (12 # 10); JNum (8 # 10)]
           [JNum 15; JNum 20; JNum 18]
           [inl Timeout; inr MOCK_RESPONSE] [] []).
  - repeat econstructor.
  - reflexivity.
  - unfold MAX_RETRIES. cbn. lia.
  - reflexivity.
  - reflexivity.
  - reflexivity.
  - vm_compute. reflexivity.
  - vm_compute. reflexivity.
  - vm_compute. reflexivity.
  - vm_compute. reflexivity.
  - reflexivity.
  - reflexivity.
  - reflexivity.
Defined.

Lemma fetch_data_interval_not_found_is_retried_witness :
  fetch_data_interval nat (always not_found) "Madrid" madrid_lat madrid_lon
    d_2020_01_01 d_2020_01_03 (mkstate 0%nat [])
  = retry_loop nat (always not_found) 4 1 "Madrid"
      (params_of madrid_lat madrid_lon d_2020_01_01 d_2020_01_03)
      (mkstate 1%nat
         ([] ++ [EGet API_URL
                   (params_of madrid_lat madrid_lon d_2020_01_01 d_2020_01_03);
                 ELog WARNING (MsgRetry (RequestException (HTTPError 404)) 1 5);
                 ESleep 5])%list).
Proof.
  apply (fetch_data_interval_not_found_is_retried nat (always not_found)
           "Madrid" madrid_lat madrid_lon d_2020_01_01 d_2020_01_03
           (mkresponse 404 JNull)).
  - reflexivity.
  - reflexivity.
Defined.

(** The run of the repository's test for status 404: five requests, a
    five-second sleep after each, and the [RuntimeError] of the exhausted
    retries rather than the [HTTPError] of the response. *)
Example fetch_data_interval_not_found_run :
  let out := fetch_data_interval nat (always not_found) "Madrid"
               madrid_lat madrid_lon d_2020_01_01 d_2020_01_03
               (mkstate 0%nat []) in
  fst out = inl (RuntimeError "No se pudo obtener datos después de 5 intentos.")
  /\ world (snd out) = 5%nat
  /\ length (filter (fun ev => is_get ev = true) (trace (snd out))) = 5%nat
  /\ filter (fun ev => is_sleep ev = true) (trace (snd out))
     = replicate 5 (ESleep 5).
Proof. vm_compute. repeat split. Qed.

Lemma first_subrange_overshoots_witness :
  month_index (mkdate 2020 2 29) = month_index d_2020_01_31 + 1
  /\ tomorrow (mkdate 2020 2 29) = inr (mkdate 2020 3 1).
Proof.
  apply (first_subrange_overshoots d_2020_01_31 d_2020_03_15
           (mkdate 2020 3 1) (mkdate 2020 2 29)).
  - reflexivity.
  - reflexivity.
  - reflexivity.
  - reflexivity.
  - reflexivity.
Defined.

(** The run for 2020-01-31 .. 2020-03-15: the first request asks for
    2020-01-31 .. 2020-02-29, the second for 2020-03-01 .. 2020-03-15. *)
Example get_meteo_data_late_start_run :
  exists rows st,
    get_meteo_data nat (always (inr MOCK_RESPONSE))
      10 "Madrid" d_2020_01_31 d_2020_03_15 "month" (mkstate 0%nat [])
    = Some (inr rows, st)
    /\ requested_ranges (trace st)
       = [(d_2020_01_31, mkdate 2020 2 29); (mkdate 2020 3 1, d_2020_03_15)].
Proof.
  eexists _, _. split; [vm_compute; reflexivity|]. reflexivity.
Qed.

(** C4, as stated, fails: a payload that passes validation but has no
    [date] array makes the fetcher raise [KeyError], which the assembler
    does not catch; an unsupported city makes the assembler itself raise
    [ValueError]; and in the last month of year 9999 the computation of
    [next_date] raises [OverflowError] before any request. *)
Lemma get_meteo_data_can_fail :
  (exists st,
     get_meteo_data nat (always (inr (mkresponse 200 payload_without_date)))
       10 "Madrid" d_2020_01_01 d_2020_01_03 "month" (mkstate 0%nat [])
     = Some (inl (KeyError "date"), st))
  /\ get_meteo_data nat (always (inr (mkresponse 200 payload_without_date)))
       10 "Paris" d_2020_01_01 d_2020_01_03 "month" (mkstate 0%nat [])
     = Some (inl (ValueError "Ciudad no soportada: Paris"), mkstate 0%nat [])
  /\ get_meteo_data nat (always (inr MOCK_RESPONSE))
       10 "Madrid" (mkdate 9999 12 1) (mkdate 9999 12 31) "month"
       (mkstate 0%nat [])
     = Some (inl OverflowError, mkstate 0%nat []).
Proof.
  split; [eexists; vm_compute; reflexivity|].
  split; vm_compute; reflexivity.
Qed.

(** The end-to-end run of the repository's tests: three rows for Madrid,
    one request, one pause. *)
Example get_meteo_data_mock_run :
  exists st,
    get_meteo_data nat (always (inr MOCK_RESPONSE)) 10 "Madrid"
      d_2020_01_01 d_2020_01_03 "month" (mkstate 0%nat [])
    = Some (inr [mkrecord "Madrid" (JStr "2020-01-01") (JNum 5) (JNum 0) (JNum 15);
                 mkrecord "Madrid" (JStr "2020-01-02") (JNum 6) (JNum (12 # 10)) (JNum 20);
                 mkrecord "Madrid" (JStr "2020-01-03") (JNum 7) (JNum (8 # 10)) (JNum 18)],
            st)
    /\ world st = 1%nat
    /\ requested_ranges (trace st) = [(d_2020_01_01, d_2020_01_03)]
    /\ filter (fun ev => is_sleep ev = true) (trace st) = [ESleep 1].
Proof. eexists. split; [vm_compute; reflexivity|]. by vm_compute. Qed.

Lemma get_meteo_data_skips_runtime_errors_witness :
  (exists rows st',
     get_meteo_data_with unit failing_fetcher 10 "Madrid" d_2020_01_01
       d_2020_03_15 "month" (mkstate tt [])
     = Some (inr rows, st'))
  /\ (forall la lo a b all_data e st1 st2,
        failing_fetcher "Madrid" la lo a b
          (record_event st1 (ELog INFO (MsgInterval "Madrid" a b))) = (inl e, st2) ->
        fetch_round unit failing_fetcher "Madrid" la lo a b all_data st1
        = (inr all_data,
           record_event (record_event st2 (ELog ERROR (MsgException e)))
             (ESleep 1))).
Proof.
  apply (get_meteo_data_skips_runtime_errors unit failing_fetcher 10 "Madrid"
           d_2020_01_01 d_2020_03_15 (mkstate tt [])).
  - intros c la lo a b st1 e st2 H. injection H as <- _. reflexivity.
  - vm_compute. eexists. reflexivity.
  - reflexivity.
  - reflexivity.
  - vm_compute. reflexivity.
  - vm_compute. lia.
Defined.


Lemma dunder_main_catches_witness :
  dunder_main unit (raise unit (KeyError "date")) (mkstate tt [])
  = (inr tt, mkstate tt [ELog ERROR (MsgUnexpected (KeyError "date"))])
  /\ exit_status (fst (dunder_main unit (raise unit (KeyError "date"))
                         (mkstate tt []))) = 0.
Proof.
  apply (dunder_main_catches unit (raise unit (KeyError "date"))
           (mkstate tt []) (mkstate tt []) (KeyError "date")).
  - reflexivity.
  - reflexivity.
Defined.

(** * Further properties of the fetcher and of the validator *)

(** ** What [validate_response] raises and what it looks at *)

(** X1. Whatever the payload, [validate_response] returns, raises
    [RuntimeError] or raises [TypeError]: as the presence of [daily] is
    tested before it is subscripted, no [KeyError] comes out of it. *)
Theorem validate_response_raises (data : json) :
  validate_response data = inr tt
  \/ (exists msg, validate_response data = inl (RuntimeError msg))
  \/ validate_response data = inl TypeError.
Proof.
  assert (Hk : forall d keys,
            py_getitem data "daily" = inr d ->
            validate_keys data keys = inr tt
            \/ (exists msg, validate_keys data keys = inl (RuntimeError msg))
            \/ validate_keys data keys = inl TypeError).
  { intros d keys Hd. induction keys as [|k keys IH]; [by left|].
    cbn [validate_keys]. rewrite Hd. cbn [rbind].
    destruct d; cbn [py_contains rbind]; try (right; by right);
      match goal with
      | |- context [negb ?b] => destruct b; cbn [negb]; [exact IH|]
      end; right; left; by eexists. }
  unfold validate_response.
  destruct data; cbn [py_contains rbind]; try (right; by right).
  - destruct (str_contains "daily" s); cbn [negb].
    + right. right. reflexivity.
    + right. left. by eexists.
  - destruct (existsb _ l); cbn [negb].
    + right. right. reflexivity.
    + right. left. by eexists.
  - destruct (m !! "daily") as [d|] eqn:E.
    + rewrite bool_decide_eq_true_2 by by eexists. cbn [negb].
      apply (Hk d). cbn. by rewrite E.
    + rewrite bool_decide_eq_false_2 by (by intros [? ?]). cbn [negb].
      right. left. by eexists.
Qed.

(** X2. Validation looks at the keys of [daily] only: two object payloads
    whose [daily] objects hold the same ones of the three variable keys get
    the same verdict, whatever is stored under the keys. *)
Theorem validate_response_keys_only (m1 m2 dm1 dm2 : gmap string json) :
  m1 !! "daily" = Some (JObj dm1) ->
  m2 !! "daily" = Some (JObj dm2) ->
  (forall k, k ∈ VARIABLES -> (is_Some (dm1 !! k) <-> is_Some (dm2 !! k))) ->
  validate_response (JObj m1) = validate_response (JObj m2).
Proof.
  intros H1 H2 Hk. unfold validate_response. cbn [py_contains rbind].
  rewrite !bool_decide_eq_true_2 by (rewrite ?H1, ?H2; by eexists).
  cbn [negb]. rewrite (validate_keys_object m1 dm1 _ H1),
    (validate_keys_object m2 dm2 _ H2).
  assert (first_missing dm1 VARIABLES = first_missing dm2 VARIABLES) as ->;
    [|reflexivity].
  unfold first_missing. revert Hk. generalize VARIABLES as keys.
  induction keys as [|k keys IH]; intros Hk; [reflexivity|]. cbn [find].
  assert (bool_decide (is_Some (dm1 !! k)) = bool_decide (is_Some (dm2 !! k)))
    as ->.
  { apply bool_decide_ext, Hk. by left. }
  destruct (bool_decide _); cbn [negb]; [|reflexivity].
  apply IH. intros k' Hin. apply Hk. by right.
Qed.

Lemma validate_response_keys_only_witness :
  validate_response (JObj {[ "daily" := JObj {[ "precipitation_sum" := JNull ]} ]})
  = validate_response (JObj {[ "daily" := JObj {[ "precipitation_sum" := JArr [];
                                                  "date" := JNum 1 ]} ]}).
Proof.
  apply (validate_response_keys_only
           {[ "daily" := JObj {[ "precipitation_sum" := JNull ]} ]}
           {[ "daily" := JObj {[ "precipitation_sum" := JArr []; "date" := JNum 1 ]} ]}
           {[ "precipitation_sum" := JNull ]}
           {[ "precipitation_sum" := JArr []; "date" := JNum 1 ]}).
  - reflexivity.
  - reflexivity.
  - intros k Hk. unfold VARIABLES in Hk.
    repeat (apply elem_of_cons in Hk as [->|Hk]); [| | |by apply elem_of_nil in Hk];
      vm_compute; split; intros [x Hx]; first [discriminate | by eexists].
Defined.

(** ** Row extraction on array-shaped payloads *)

Lemma zip_rows_drop (city : string) (dates tcol pcol wcol : list json)
    (a : nat) (d t p w : json) :
  dates !! a = Some d -> tcol !! a = Some t ->
  pcol !! a = Some p -> wcol !! a = Some w ->
  zip_rows city (drop a dates) (drop a tcol) (drop a pcol) (drop a wcol)
  = mkrecord city d t p w
    :: zip_rows city (drop (S a) dates) (drop (S a) tcol)
         (drop (S a) pcol) (drop (S a) wcol).
Proof.
  intros Hd Ht Hp Hw. unfold zip_rows.
  by rewrite (drop_S _ _ _ Hd), (drop_S _ _ _ Ht), (drop_S _ _ _ Hp),
    (drop_S _ _ _ Hw).
Qed.

Lemma zip_rows_length (city : string) (dates tcol pcol wcol : list json) :
  (length dates <= length tcol)%nat -> (length dates <= length pcol)%nat ->
  (length dates <= length wcol)%nat ->
  length (zip_rows city dates tcol pcol wcol) = length dates.
Proof.
  intros Ht Hp Hw. unfold zip_rows.
  rewrite length_zip_with, !length_zip_with. lia.
Qed.

Section ArrayPayload.

Variables (city : string) (dm : gmap string json).
Variables (dates tcol pcol wcol : list json).
Hypothesis Ht : dm !! "temperature_2m_mean" = Some (JArr tcol).
Hypothesis Hp : dm !! "precipitation_sum" = Some (JArr pcol).
Hypothesis Hw : dm !! "wind_speed_10m_max" = Some (JArr wcol).

(** One round of the comprehension at an index every array has. *)
Lemma build_rows_cons (a : nat) (idx : list nat) (d t p w : json) :
  dates !! a = Some d -> tcol !! a = Some t ->
  pcol !! a = Some p -> wcol !! a = Some w ->
  build_rows city (JObj dm) (JArr dates) (a :: idx)
  = rbind (build_rows city (JObj dm) (JArr dates) idx)
      (fun rest => inr (mkrecord city d t p w :: rest)).
Proof using Ht Hp Hw.
  intros Hd Ht' Hp' Hw'. cbn [build_rows].
  do 4 (cbn [py_getindex py_getitem rbind];
        rewrite ?Hd, ?Ht, ?Ht', ?Hp, ?Hp', ?Hw, ?Hw').
  reflexivity.
Qed.

(** One round at an index of the date array that some other array lacks. *)
Lemma build_rows_short (a : nat) (idx : list nat) :
  (a < length dates)%nat ->
  (length tcol <= a \/ length pcol <= a \/ length wcol <= a)%nat ->
  build_rows city (JObj dm) (JArr dates) (a :: idx) = inl IndexError.
Proof using Ht Hp Hw.
  intros Ha Hshort. cbn [build_rows].
  destruct (lookup_lt_is_Some_2 dates a Ha) as [d Hd].
  cbn [py_getindex rbind]. rewrite Hd. cbn [rbind py_getitem]. rewrite Ht.
  cbn [rbind py_getindex].
  destruct (tcol !! a) as [t|] eqn:Et; [|reflexivity].
  cbn [rbind py_getitem]. rewrite Hp. cbn [rbind py_getindex].
  destruct (pcol !! a) as [p|] eqn:Ep; [|reflexivity].
  cbn [rbind py_getitem]. rewrite Hw. cbn [rbind py_getindex].
  destruct (wcol !! a) as [w|] eqn:Ew; [|reflexivity].
  apply lookup_lt_Some in Et, Ep, Ew. lia.
Qed.

Lemma build_rows_full (n a : nat) :
  (a + n = length dates)%nat ->
  (length dates <= length tcol)%nat -> (length dates <= length pcol)%nat ->
  (length dates <= length wcol)%nat ->
  build_rows city (JObj dm) (JArr dates) (seq a n)
  = inr (zip_rows city (drop a dates) (drop a tcol) (drop a pcol) (drop a wcol)).
Proof using Ht Hp Hw.
  revert a. induction n as [|n IH]; intros a Ha Lt Lp Lw.
  - cbn [seq build_rows]. unfold zip_rows. rewrite (drop_ge dates) by lia.
    reflexivity.
  - cbn [seq].
    destruct (lookup_lt_is_Some_2 dates a) as [d Hd]; [lia|].
    destruct (lookup_lt_is_Some_2 tcol a) as [t Ht']; [lia|].
    destruct (lookup_lt_is_Some_2 pcol a) as [p Hp']; [lia|].
    destruct (lookup_lt_is_Some_2 wcol a) as [w Hw']; [lia|].
    rewrite (build_rows_cons a _ d t p w) by done.
    rewrite IH by lia. cbn [rbind].
    by rewrite (zip_rows_drop city dates tcol pcol wcol a d t p w).
Qed.

Lemma build_rows_index_error (n a : nat) :
  (a + n <= length dates)%nat ->
  (a <= length tcol)%nat -> (a <= length pcol)%nat -> (a <= length wcol)%nat ->
  (length tcol < a + n \/ length pcol < a + n \/ length wcol < a + n)%nat ->
  build_rows city (JObj dm) (JArr dates) (seq a n) = inl IndexError.
Proof using Ht Hp Hw.
  revert a. induction n as [|n IH]; intros a Ha Lt Lp Lw Hshort; [lia|].
  cbn [seq].
  destruct (decide (length tcol <= a \/ length pcol <= a \/ length wcol <= a)%nat)
    as [Hnow|Hlater].
  - apply build_rows_short; [lia|done].
  - destruct (lookup_lt_is_Some_2 dates a) as [d Hd]; [lia|].
    destruct (lookup_lt_is_Some_2 tcol a) as [t Ht']; [lia|].
    destruct (lookup_lt_is_Some_2 pcol a) as [p Hp']; [lia|].
    destruct (lookup_lt_is_Some_2 wcol a) as [w Hw']; [lia|].
    rewrite (build_rows_cons a _ d t p w) by done.
    rewrite IH by lia. reflexivity.
Qed.

End ArrayPayload.

(** X3. For a payload whose [daily] object holds a [date] array and an array
    for each variable, the rows are read position by position: when every
    variable array is at least as long as the date array, there is one row
    per date and values beyond the last date are ignored; when some
    variable array is shorter, the extraction raises [IndexError]. *)
Theorem extract_rows_arrays (city : string) (m dm : gmap string json)
    (dates tcol pcol wcol : list json) :
  m !! "daily" = Some (JObj dm) ->
  dm !! "date" = Some (JArr dates) ->
  dm !! "temperature_2m_mean" = Some (JArr tcol) ->
  dm !! "precipitation_sum" = Some (JArr pcol) ->
  dm !! "wind_speed_10m_max" = Some (JArr wcol) ->
  extract_rows city (JObj m)
  = if decide (length dates <= length tcol /\ length dates <= length pcol
               /\ length dates <= length wcol)%nat
    then inr (zip_rows city dates tcol pcol wcol)
    else inl IndexError.
Proof.
  intros Hdaily Hdate Ht Hp Hw. unfold extract_rows.
  cbn [py_getitem rbind]. rewrite Hdaily. cbn [py_getitem rbind].
  rewrite Hdate. cbn [py_len rbind].
  destruct (decide _) as [(Lt & Lp & Lw)|Hshort].
  - by rewrite (build_rows_full city dm dates tcol pcol wcol Ht Hp Hw
                  (length dates) 0%nat).
  - apply (build_rows_index_error city dm dates tcol pcol wcol Ht Hp Hw);
      lia.
Qed.

Lemma extract_rows_arrays_witness :
  extract_rows "Madrid"
    (JObj {[ "daily" := JObj {[ "date" := JArr [JStr "2020-01-01"; JStr "2020-01-02"];
                               "temperature_2m_mean" := JArr [JNum 5; JNum 6; JNum 7];
                               "precipitation_sum" := JArr [JNum 0];
                               "wind_speed_10m_max" := JArr [JNum 15; JNum 20] ]} ]})
  = if decide (2 <= 3 /\ 2 <= 1 /\ 2 <= 2)%nat
    then inr (zip_rows "Madrid" [JStr "2020-01-01"; JStr "2020-01-02"]
                [JNum 5; JNum 6; JNum 7] [JNum 0] [JNum 15; JNum 20])
    else inl IndexError.
Proof.
  apply (extract_rows_arrays "Madrid"
           {[ "daily" := JObj {[ "date" := JArr [JStr "2020-01-01"; JStr "2020-01-02"];
                                 "temperature_2m_mean" := JArr [JNum 5; JNum 6; JNum 7];
                                 "precipitation_sum" := JArr [JNum 0];
                                 "wind_speed_10m_max" := JArr [JNum 15; JNum 20] ]} ]}
           {[ "date" := JArr [JStr "2020-01-01"; JStr "2020-01-02"];
              "temperature_2m_mean" := JArr [JNum 5; JNum 6; JNum 7];
              "precipitation_sum" := JArr [JNum 0];
              "wind_speed_10m_max" := JArr [JNum 15; JNum 20] ]}
           [JStr "2020-01-01"; JStr "2020-01-02"]
           [JNum 5; JNum 6; JNum 7] [JNum 0] [JNum 15; JNum 20]).
  - reflexivity.
  - vm_compute. reflexivity.
  - vm_compute. reflexivity.
  - vm_compute. reflexivity.
  - vm_compute. reflexivity.
Defined.

(** ** Every run of [fetch_data_interval] *)

Section FetcherRuns.

Variable World : Type.
Variable requests_get : string -> params -> World -> (request_error + response) * World.

(** The shape of a run: a series of failed attempts, each leaving a request,
    a warning and a five-second sleep in the trace; then either the budget
    is spent, or one more request brings a response without error status,
    whose payload decides the result. *)
Lemma retry_loop_shape (budget retries : nat) (city : string) (p : params)
    (st st' : state World) (r : res (list record)) :
  retry_loop World requests_get budget retries city p st = (r, st') ->
  exists fails,
    forallb is_failure fails = true
    /\ ((length fails = budget
         /\ responds World requests_get p (world st) fails (world st')
         /\ trace st' = (trace st ++ retry_events p fails retries)%list
         /\ r = inl (RuntimeError msg_max_retries))
        \/ ((length fails < budget)%nat
            /\ exists resp,
                 is_failure (inr resp) = false
                 /\ responds World requests_get p (world st)
                      (fails ++ [inr resp])%list (world st')
                 /\ trace st' = (trace st ++ retry_events p fails retries
                                 ++ [EGet API_URL p])%list
                 /\ r = rbind (validate_response (body resp))
                          (fun _ => extract_rows city (body resp)))).
Proof.
  revert retries st. induction budget as [|budget IH]; intros retries [w tr].
  { cbn. intros [= <- <-]. exists []. split; [reflexivity|]. left.
    cbn. rewrite app_nil_r. repeat split. constructor. }
  destruct (requests_get API_URL p w) as [o w1] eqn:Hget.
  destruct (is_failure o) eqn:Hf.
  - rewrite (retry_loop_failure World requests_get budget retries city p
               w w1 o tr Hget Hf).
    intros H. apply IH in H as (fails & Hall & H). cbn [world trace] in H.
    exists (o :: fails). split; [cbn; by rewrite Hf|].
    destruct H as [(Hlen & Hres & Htr & Hr)|(Hlen & resp & Hok & Hres & Htr & Hr)].
    + left. cbn [length world trace]. split; [lia|].
      split; [by econstructor|]. split; [|done].
      rewrite Htr. cbn [retry_events]. by rewrite <- !app_assoc.
    + right. cbn [length world trace]. split; [lia|]. exists resp.
      split; [done|]. split; [by econstructor|]. split; [|done].
      rewrite Htr. cbn [retry_events]. by rewrite <- !app_assoc.
  - destruct o as [e|resp]; [discriminate|]. intros H.
    exists []. split; [reflexivity|]. right. cbn [length]. split; [lia|].
    exists resp. split; [done|].
    pose proof (attempt_response World requests_get city p w w1 resp tr Hget Hf)
      as Ha.
    assert (r = rbind (validate_response (body resp))
                  (fun _ => extract_rows city (body resp))
            /\ st' = mkstate w1 (tr ++ [EGet API_URL p])%list) as [-> ->].
    { destruct (rbind _ _) as [e|rows] eqn:E.
      - rewrite (retry_loop_escape World requests_get budget retries city p
                   _ _ e Ha) in H; [by injection H as <- <-|].
        destruct (validate_response (body resp)) as [e1|[]] eqn:Ev;
          cbn [rbind] in E.
        + injection E as <-. by eapply validate_response_not_request.
        + apply extract_rows_error in E. by destruct e.
      - rewrite (retry_loop_return World requests_get budget retries city p
                   _ _ rows Ha) in H. by injection H as <- <-. }
    cbn [world trace retry_events app]. split; [|done].
    econstructor; [exact Hget|constructor].
Qed.



(** X8. The validator does not ask for the [date] array. A payload whose
    [daily] object holds the three variable keys but no [date] passes
    validation, and [fetch_data_interval] then raises [KeyError] for
    [date] on that attempt, with no retry and no pause. *)
Theorem fetch_data_interval_missing_date (city : string)
    (latitude longitude : Q) (start_date end_date : date)
    (r : response) (m dm : gmap string json) (w w' : World) (tr : list event) :
  let p := params_of latitude longitude start_date end_date in
  requests_get API_URL p w = (inr r, w') ->
  is_failure (inr r) = false ->
  body r = JObj m ->
  m !! "daily" = Some (JObj dm) ->
  Forall (fun k => is_Some (dm !! k)) VARIABLES ->
  dm !! "date" = None ->
  validate_response (body r) = inr tt
  /\ fetch_data_interval World requests_get city latitude longitude
       start_date end_date (mkstate w tr)
     = (inl (KeyError "date"), mkstate w' (tr ++ [EGet API_URL p])%list).
Proof.
  intros p Hget Hok Hbody Hdaily Hvars Hdate.
  assert (Hval : validate_response (body r) = inr tt).
  { rewrite Hbody. unfold validate_response. cbn [py_contains rbind].
    rewrite bool_decide_eq_true_2 by (rewrite Hdaily; by eexists).
    cbn [negb]. rewrite (validate_keys_object m dm VARIABLES Hdaily).
    apply first_missing_None in Hvars. by rewrite Hvars. }
  split; [done|]. rewrite fetch_data_interval_unfold. fold p.
  apply retry_loop_escape; [|reflexivity].
  rewrite (attempt_response World requests_get city p w w' r tr Hget Hok).
  rewrite Hval. cbn [rbind]. rewrite Hbody. unfold extract_rows.
  cbn [py_getitem rbind]. rewrite Hdaily. cbn [py_getitem rbind].
  by rewrite Hdate.
Qed.

End FetcherRuns.

Lemma fetch_data_interval_missing_date_witness :
  validate_response payload_without_date = inr tt
  /\ fetch_data_interval nat (always (inr (mkresponse 200 payload_without_date)))
       "Madrid" madrid_lat madrid_lon d_2020_01_01 d_2020_01_03 (mkstate 0%nat [])
     = (inl (KeyError "date"),
        mkstate 1%nat
          ([] ++ [EGet API_URL
                    (params_of madrid_lat madrid_lon d_2020_01_01 d_2020_01_03)])%list).
Proof.
  apply (fetch_data_interval_missing_date nat
           (always (inr (mkresponse 200 payload_without_date))) "Madrid"
           madrid_lat madrid_lon d_2020_01_01 d_2020_01_03
           (mkresponse 200 payload_without_date)
           {[ "daily" := JObj {[ "temperature_2m_mean" := JArr [];
                                 "precipitation_sum" := JArr [];
                                 "wind_speed_10m_max" := JArr [] ]} ]}
           {[ "temperature_2m_mean" := JArr [];
              "precipitation_sum" := JArr [];
              "wind_speed_10m_max" := JArr [] ]}).
  - reflexivity.
  - reflexivity.
  - reflexivity.
  - reflexivity.
  - unfold VARIABLES. repeat constructor; vm_compute; by eexists.
  - vm_compute. reflexivity.
Defined.

(** * The sub-ranges of [get_meteo_data] *)

(** ** Order on dates *)

Lemma date_leb_spec (a b : date) :
  date_leb a b = true <-> date_ltb b a = false.
Proof. unfold date_leb. by rewrite negb_true_iff. Qed.

Lemma date_ltb_false (a b : date) :
  date_ltb a b = false <->
  ~ (year a < year b
     \/ (year a = year b
         /\ (month a < month b \/ (month a = month b /\ day a < day b)))).
Proof.
  rewrite <- date_ltb_spec. destruct (date_ltb a b); [|done].
  split; [discriminate|]. intros H. by destruct H.
Qed.

Lemma date_ltb_month_index (a b : date) :
  1 <= month a <= 12 -> 1 <= month b <= 12 ->
  month_index a < month_index b -> date_ltb a b = true.
Proof. unfold month_index. intros Ha Hb H. apply date_ltb_spec. lia. Qed.

(** The eve of the first day of a month: the last day of the month before. *)
Lemma yesterday_first_day (nd y : date) :
  valid_date nd = true -> day nd = 1 -> yesterday nd = inr y ->
  valid_date y = true
  /\ month_index y + 1 = month_index nd
  /\ day y = days_in_month (year y) (month y)
  /\ date_ltb y nd = true.
Proof.
  destruct nd as [yr mo dy]. rewrite valid_date_spec. cbn [year month day].
  intros (Hy & Hm & Hd) ->. unfold yesterday, MINYEAR, MAXYEAR in *.
  cbn [year month day]. change (1 <? 1) with false. cbn iota.
  destruct (Z.ltb_spec 1 mo).
  - intros [= <-]. pose proof (days_in_month_bounds yr (mo - 1)).
    split; [apply valid_date_spec; cbn; unfold MINYEAR, MAXYEAR; lia|].
    split; [unfold month_index; cbn; lia|]. split; [reflexivity|].
    apply date_ltb_spec. cbn. lia.
  - destruct (Z.ltb_spec 1 yr); [|discriminate]. intros [= <-].
    split; [apply valid_date_spec; by cbn; unfold MINYEAR, MAXYEAR; lia|].
    split; [unfold month_index; cbn; lia|]. split; [reflexivity|].
    apply date_ltb_spec. cbn. lia.
Qed.

(** Nothing lies between the eve of a first of month and that day. *)
Lemma date_leb_eve (a nd y : date) :
  valid_date a = true -> valid_date nd = true -> day nd = 1 ->
  yesterday nd = inr y -> date_ltb a nd = true -> date_leb a y = true.
Proof.
  destruct a as [ay am ad], nd as [yr mo dy]. rewrite !valid_date_spec.
  cbn [year month day]. intros (Hay & Ham & Had) (Hy & Hm & Hd) ->.
  unfold yesterday, MINYEAR, MAXYEAR in *. cbn [year month day].
  change (1 <? 1) with false. cbn iota.
  intros Hyes Hlt. apply date_ltb_spec in Hlt. cbn [year month day] in Hlt.
  apply date_leb_spec, date_ltb_false.
  pose proof (days_in_month_bounds ay am).
  destruct (Z.ltb_spec 1 mo).
  - injection Hyes as <-. cbn [year month day].
    destruct (decide (ay = yr /\ am = mo - 1)) as [[-> ->]|Hne]; lia.
  - destruct (Z.ltb_spec 1 yr); [|discriminate]. injection Hyes as <-.
    cbn [year month day]. lia.
Qed.

Lemma date_eq_of_leb (a b : date) :
  date_leb a b = true -> date_leb b a = true -> a = b.
Proof.
  destruct a as [ay am ad], b as [yr mo dy].
  rewrite !date_leb_spec, !date_ltb_false. cbn [year month day].
  intros H1 H2. f_equal; lia.
Qed.

(** ** The loop produces a tiling *)

Lemma subranges_after (fuel : nat) (end_date_dt current_date : date) :
  date_leb current_date end_date_dt = false ->
  subranges fuel end_date_dt current_date = [].
Proof. intros H. destruct fuel; [reflexivity|]. cbn [subranges]. by rewrite H. Qed.

Lemma subranges_tiles (fuel : nat) (end_date_dt current_date : date) :
  valid_date current_date = true ->
  valid_date end_date_dt = true ->
  date_leb current_date end_date_dt = true ->
  year end_date_dt < MAXYEAR ->
  (enough_fuel end_date_dt current_date <= fuel)%nat ->
  tiles end_date_dt current_date (subranges fuel end_date_dt current_date).
Proof.
  intros Hv Hve Hle Hy. revert current_date Hv Hle.
  induction fuel as [|fuel IH]; intros cur Hv Hle Hfuel.
  { unfold enough_fuel in Hfuel. lia. }
  cbn [subranges]. rewrite Hle.
  pose proof (date_leb_year _ _ Hle) as Hyc.
  destruct (next_date_of_defined cur Hv ltac:(lia)) as [nd En]. rewrite En.
  destruct (next_date_of_later _ _ Hv En) as (Hvn & Hdn & Hmi & _).
  pose proof Hv as Hv0. pose proof Hvn as Hvn0. pose proof Hve as Hve0.
  apply valid_date_spec in Hv0, Hvn0, Hve0.
  unfold interval_end_of.
  destruct (yesterday nd) as [e|y] eqn:Ey.
  { unfold yesterday in Ey. rewrite Hdn in Ey. change (1 <? 1) with false in Ey.
    cbn iota in Ey. unfold month_index, MINYEAR in *.
    destruct (Z.ltb_spec 1 (month nd)); [discriminate|].
    destruct (Z.ltb_spec 1 (year nd)); [discriminate|]. lia. }
  cbn [rbind].
  destruct (yesterday_first_day nd y Hvn Hdn Ey) as (Hvy & Hmy & Hdy & Hyn).
  pose proof (tomorrow_yesterday nd y Hvn Ey) as Hty.
  assert (Hcn : date_ltb cur nd = true) by (apply date_ltb_month_index; lia).
  pose proof (date_leb_eve cur nd y Hv Hvn Hdn Ey Hcn) as Hcy.
  destruct (date_leb nd end_date_dt) eqn:Hne.
  - assert (date_min y end_date_dt = y) as ->.
    { unfold date_min. destruct (date_ltb end_date_dt y) eqn:E; [|reflexivity].
      exfalso. apply date_leb_spec, date_ltb_false in Hne.
      apply date_ltb_spec in E, Hyn. lia. }
    apply (tiles_step end_date_dt cur y nd); try done.
    + intros Hd1. pose proof (next_date_of_first_day _ _ Hv Hd1 En).
      apply valid_date_spec in Hvy. unfold month_index in *. lia.
    + apply IH; [done|done|]. unfold enough_fuel in *.
      pose proof (date_leb_month_index cur end_date_dt
                    ltac:(lia) ltac:(lia) Hle). lia.
  - assert (date_min y end_date_dt = end_date_dt) as ->.
    { unfold date_min. destruct (date_ltb end_date_dt y) eqn:E; [reflexivity|].
      apply date_eq_of_leb; [by apply date_leb_spec|].
      apply (date_leb_eve end_date_dt nd y); try done.
      unfold date_leb in Hne. by apply negb_false_iff in Hne. }
    rewrite subranges_after by done. apply tiles_last; [done|].
    intros Hd1. pose proof (next_date_of_first_day _ _ Hv Hd1 En).
    pose proof (date_leb_month_index cur end_date_dt
                  ltac:(lia) ltac:(lia) Hle).
    unfold date_leb in Hne. apply negb_false_iff, date_ltb_spec in Hne.
    unfold month_index in *. lia.
Qed.

(** ** What a tiling gives *)

Lemma tiles_head (end_date a : date) (rs : list (date * date)) :
  tiles end_date a rs -> exists b rs', rs = (a, b) :: rs'.
Proof. destruct 1; by eexists _, _. Qed.

Lemma tiles_last_end (end_date a : date) (rs : list (date * date)) :
  tiles end_date a rs -> exists a', last rs = Some (a', end_date).
Proof.
  induction 1 as [a|a b c rs _ _ _ _ _ _ _ Hrs IH]; [by eexists|].
  destruct IH as [a' Hl]. exists a'.
  destruct (tiles_head _ _ _ Hrs) as (d & rs' & ->). exact Hl.
Qed.

Lemma tiles_adjacent (end_date a : date) (rs : list (date * date)) :
  tiles end_date a rs ->
  forall i x b c d,
    rs !! i = Some (x, b) -> rs !! S i = Some (c, d) -> tomorrow b = inr c.
Proof.
  induction 1 as [a|a b c rs _ Ht _ _ _ _ _ Hrs IH]; intros i x b' c' d H1 H2.
  - by destruct i.
  - destruct i as [|i].
    + destruct (tiles_head _ _ _ Hrs) as (d' & rs' & ->).
      cbn in H1, H2. by injection H1 as <- <-; injection H2 as <- <-.
    + by eapply IH.
Qed.

Lemma tiles_nonempty (end_date a : date) (rs : list (date * date)) :
  tiles end_date a rs -> Forall (fun r => date_leb r.1 r.2 = true) rs.
Proof. induction 1; repeat constructor; done. Qed.

Lemma tiles_starts (end_date a : date) (rs : list (date * date)) :
  tiles end_date a rs ->
  forall i x b, rs !! S i = Some (x, b) -> day x = 1.
Proof.
  induction 1 as [a|a b c rs _ _ _ Hc _ _ _ Hrs IH]; intros i x b' H1.
  - by destruct i.
  - destruct i as [|i]; [|by eapply IH].
    destruct (tiles_head _ _ _ Hrs) as (d' & rs' & ->).
    cbn in H1. by injection H1 as <- <-.
Qed.

Lemma tiles_ends_month (end_date a : date) (rs : list (date * date)) :
  tiles end_date a rs ->
  forall i x b,
    rs !! i = Some (x, b) -> (S i < length rs)%nat ->
    day b = days_in_month (year b) (month b).
Proof.
  induction 1 as [a|a b c rs _ _ Hb _ _ _ _ Hrs IH]; intros i x b' H1 Hi.
  - cbn in Hi. lia.
  - destruct i as [|i].
    + cbn in H1. by injection H1 as <- <-.
    + eapply IH; [exact H1|]. cbn in Hi. lia.
Qed.

Lemma tiles_within (end_date a : date) (rs : list (date * date)) :
  tiles end_date a rs ->
  forall i x b,
    rs !! i = Some (x, b) -> day x = 1 -> year x = year b /\ month x = month b.
Proof.
  induction 1 as [a ? Ha|a b c rs _ _ _ _ _ Ha _ Hrs IH]; intros i x b' H1 Hx.
  - destruct i; [|done]. cbn in H1. injection H1 as <- <-. by apply Ha.
  - destruct i as [|i]; [|by eapply IH].
    cbn in H1. injection H1 as <- <-. by apply Ha.
Qed.

Lemma tiles_count (end_date a : date) (rs : list (date * date)) :
  tiles end_date a rs -> day a = 1 ->
  Z.of_nat (length rs) = month_index end_date - month_index a + 1
  /\ forall i x b, rs !! i = Some (x, b) ->
                   month_index x = month_index a + Z.of_nat i.
Proof.
  induction 1 as [a ? Ha|a b c rs _ _ _ Hc Hbc Ha _ Hrs IH]; intros Hd.
  - destruct (Ha Hd) as [Hy Hm]. unfold month_index. rewrite Hy, Hm.
    split; [cbn; lia|]. intros [|i] x b H1; [|done].
    cbn in H1. injection H1 as <- <-. lia.
  - destruct (Ha Hd) as [Hy Hm]. destruct (IH Hc) as [Hlen Hidx].
    assert (month_index c = month_index a + 1) as Hca
      by (unfold month_index in *; lia).
    split; [cbn [length]; lia|]. intros [|i] x b' H1.
    + cbn in H1. injection H1 as <- <-. lia.
    + cbn in H1. rewrite (Hidx i x b' H1). lia.
Qed.

(** X9. For valid dates with [start_date <= end_date] (before year 9999),
    the sub-ranges of the loop cover the range exactly once: the first one
    starts on [start_date], the last one ends on [end_date], each starts on
    the day after the one before ended, and none is empty. *)
Theorem month_ranges_cover (start_date end_date : date) :
  valid_date start_date = true ->
  valid_date end_date = true ->
  date_leb start_date end_date = true ->
  year end_date < MAXYEAR ->
  (exists b rs, month_ranges start_date end_date = (start_date, b) :: rs)
  /\ (exists a, last (month_ranges start_date end_date) = Some (a, end_date))
  /\ (forall i a b c d,
        month_ranges start_date end_date !! i = Some (a, b) ->
        month_ranges start_date end_date !! S i = Some (c, d) ->
        tomorrow b = inr c)
  /\ Forall (fun r => date_leb r.1 r.2 = true) (month_ranges start_date end_date).
Proof.
  intros Hv Hve Hle Hy.
  pose proof (subranges_tiles _ end_date start_date Hv Hve Hle Hy (le_n _)) as Ht.
  fold (month_ranges start_date end_date) in Ht.
  split; [by eapply tiles_head|]. split; [by eapply tiles_last_end|].
  split; [by eapply tiles_adjacent|by eapply tiles_nonempty].
Qed.

(** X10. Under the same conditions every sub-range after the first starts on
    the first day of a month and ends within that month, and every
    sub-range before the last ends on the last day of a month: the
    sub-ranges between the first and the last are whole calendar months. *)
Theorem month_ranges_whole_months (start_date end_date : date) :
  valid_date start_date = true ->
  valid_date end_date = true ->
  date_leb start_date end_date = true ->
  year end_date < MAXYEAR ->
  forall i a b,
    month_ranges start_date end_date !! i = Some (a, b) ->
    ((0 < i)%nat -> day a = 1)
    /\ ((S i < length (month_ranges start_date end_date))%nat ->
        day b = days_in_month (year b) (month b))
    /\ ((0 < i)%nat -> year a = year b /\ month a = month b).
Proof.
  intros Hv Hve Hle Hy i a b Hi.
  pose proof (subranges_tiles _ end_date start_date Hv Hve Hle Hy (le_n _)) as Ht.
  fold (month_ranges start_date end_date) in Ht.
  assert (Hday : (0 < i)%nat -> day a = 1).
  { intros Hpos. destruct i as [|i]; [lia|]. by eapply tiles_starts. }
  split; [done|]. split; [by eapply tiles_ends_month|].
  intros Hpos. eapply tiles_within; eauto.
Qed.

(** X11. When [start_date] is the first day of a month, there is exactly one
    sub-range per calendar month from the month of [start_date] to the
    month of [end_date], each starting on the first of its month and ending
    within it. *)
Theorem month_ranges_from_first_day (start_date end_date : date) :
  valid_date start_date = true ->
  valid_date end_date = true ->
  date_leb start_date end_date = true ->
  year end_date < MAXYEAR ->
  day start_date = 1 ->
  Z.of_nat (length (month_ranges start_date end_date))
  = month_index end_date - month_index start_date + 1
  /\ forall i a b,
       month_ranges start_date end_date !! i = Some (a, b) ->
       day a = 1
       /\ month_index a = month_index start_date + Z.of_nat i
       /\ year b = year a /\ month b = month a.
Proof.
  intros Hv Hve Hle Hy Hd.
  pose proof (subranges_tiles _ end_date start_date Hv Hve Hle Hy (le_n _)) as Ht.
  fold (month_ranges start_date end_date) in Ht.
  destruct (tiles_count _ _ _ Ht Hd) as [Hlen Hidx]. split; [done|].
  intros i a b Hi.
  assert (Hda : day a = 1).
  { destruct i as [|i]; [|by eapply tiles_starts].
    destruct (tiles_head _ _ _ Ht) as (b' & rs & Heq). rewrite Heq in Hi.
    cbn in Hi. by injection Hi as <- <-. }
  split; [done|]. split; [by eapply Hidx|].
  destruct (tiles_within _ _ _ Ht i a b Hi Hda). by split.
Qed.

(** * Whole runs of [get_meteo_data] *)

Lemma subranges_fuel (fuel fuel' : nat) (end_date_dt current_date : date) :
  valid_date current_date = true ->
  valid_date end_date_dt = true ->
  (enough_fuel end_date_dt current_date <= fuel)%nat ->
  (enough_fuel end_date_dt current_date <= fuel')%nat ->
  subranges fuel end_date_dt current_date
  = subranges fuel' end_date_dt current_date.
Proof.
  intros Hv Hve. revert fuel' current_date Hv.
  induction fuel as [|fuel IH]; intros fuel' cur Hv Hf Hf'.
  { unfold enough_fuel in Hf. lia. }
  destruct fuel' as [|fuel']; [unfold enough_fuel in Hf'; lia|].
  cbn [subranges]. destruct (date_leb cur end_date_dt) eqn:Hle; [|reflexivity].
  destruct (next_date_of cur) as [e|nd] eqn:En; [reflexivity|].
  destruct (interval_end_of nd end_date_dt) as [e|ie]; [reflexivity|].
  destruct (next_date_of_later _ _ Hv En) as (Hvn & _ & Hmi & _).
  pose proof Hv as Hv0. pose proof Hve as Hve0.
  apply valid_date_spec in Hv0, Hve0.
  pose proof (date_leb_month_index cur end_date_dt ltac:(lia) ltac:(lia) Hle).
  f_equal. apply IH; [done| |]; unfold enough_fuel in *; lia.
Qed.

Section Rounds.

Variable World : Type.
Variable fetcher : string -> Q -> Q -> date -> date -> M World (list record).

(** With enough fuel and no date past year 9998, the loop is the sequence
    of rounds over its sub-ranges. *)
Lemma months_loop_run_rounds (fuel : nat) (city : string)
    (latitude longitude : Q) (end_date_dt current_date : date)
    (all_data : list record) (st : state World) :
  valid_date current_date = true ->
  valid_date end_date_dt = true ->
  year end_date_dt < MAXYEAR ->
  (enough_fuel end_date_dt current_date <= fuel)%nat ->
  months_loop World fetcher fuel city latitude longitude end_date_dt
    current_date all_data st
  = Some (run_rounds fetcher city latitude longitude
            (subranges fuel end_date_dt current_date) all_data st).
Proof.
  intros Hv Hve Hy. revert current_date all_data st Hv.
  induction fuel as [|fuel IH]; intros cur all_data st Hv Hfuel.
  { unfold enough_fuel in Hfuel. lia. }
  cbn [months_loop subranges].
  destruct (date_leb cur end_date_dt) eqn:Hle; [|reflexivity].
  pose proof (date_leb_year _ _ Hle) as Hyc.
  destruct (next_date_of_defined cur Hv ltac:(lia)) as [nd En]. rewrite En.
  destruct (next_date_of_later _ _ Hv En) as (Hvn & _ & Hmi & _).
  pose proof Hv as Hv0. pose proof Hvn as Hvn0. pose proof Hve as Hve0.
  apply valid_date_spec in Hv0, Hvn0, Hve0.
  destruct (interval_end_of_defined nd end_date_dt) as [ie ->];
    [unfold month_index, MINYEAR in *; lia|lia|].
  cbn [run_rounds].
  destruct (fetch_round _ _ _ _ _ _ _ _ _) as [[e|all'] st']; [reflexivity|].
  apply IH; [done|]. unfold enough_fuel in *.
  pose proof (date_leb_month_index cur end_date_dt ltac:(lia) ltac:(lia) Hle).
  lia.
Qed.

Lemma months_loop_month_ranges (fuel : nat) (city : string)
    (latitude longitude : Q) (start_date end_date : date)
    (all_data : list record) (st : state World) :
  valid_date start_date = true ->
  valid_date end_date = true ->
  year end_date < MAXYEAR ->
  (enough_fuel end_date start_date <= fuel)%nat ->
  months_loop World fetcher fuel city latitude longitude end_date
    start_date all_data st
  = Some (run_rounds fetcher city latitude longitude
            (month_ranges start_date end_date) all_data st).
Proof.
  intros Hv Hve Hy Hfuel. rewrite months_loop_run_rounds by done.
  unfold month_ranges.
  by rewrite (subranges_fuel fuel (enough_fuel end_date start_date)).
Qed.

Lemma get_meteo_data_with_month (fuel : nat) (city : string)
    (latitude longitude : Q) (start_date end_date : date) (st : state World) :
  COORDINATES !! city = Some (latitude, longitude) ->
  get_meteo_data_with World fetcher fuel city start_date end_date "month" st
  = months_loop World fetcher fuel city latitude longitude end_date
      start_date [] st.
Proof.
  intros Hc. unfold get_meteo_data_with. rewrite Hc.
  by change (negb ("month" =? "month")%string) with false.
Qed.

Lemma run_rounds_app (city : string) (latitude longitude : Q)
    (r1 r2 : list (date * date)) (all_data : list record) (st : state World) :
  run_rounds fetcher city latitude longitude (r1 ++ r2) all_data st
  = match run_rounds fetcher city latitude longitude r1 all_data st with
    | (inr all1, st1) => run_rounds fetcher city latitude longitude r2 all1 st1
    | (inl e, st1) => (inl e, st1)
    end.
Proof.
  revert all_data st. induction r1 as [|[a b] r1 IH]; intros all_data st;
    [reflexivity|].
  cbn [app run_rounds].
  destruct (fetch_round _ _ _ _ _ _ _ _ _) as [[e|all1] st1]; [reflexivity|].
  apply IH.
Qed.

(** X12. For a supported city, valid dates (the end date before year 9999)
    and enough fuel, [get_meteo_data] is the sequence of rounds, one per
    sub-range of [month_ranges] and in their order, each made of the
    announcement, the call of the fetcher, the handling of a [RuntimeError]
    and the pause; an exception of another class ends the sequence. *)
Theorem get_meteo_data_rounds (fuel : nat) (city : string)
    (latitude longitude : Q) (start_date end_date : date) (st : state World) :
  COORDINATES !! city = Some (latitude, longitude) ->
  valid_date start_date = true ->
  valid_date end_date = true ->
  year end_date < MAXYEAR ->
  (enough_fuel end_date start_date <= fuel)%nat ->
  get_meteo_data_with World fetcher fuel city start_date end_date "month" st
  = Some (run_rounds fetcher city latitude longitude
            (month_ranges start_date end_date) [] st).
Proof.
  intros Hc Hv Hve Hy Hfuel.
  rewrite (get_meteo_data_with_month fuel city latitude longitude) by done.
  by apply months_loop_month_ranges.
Qed.

(** X13. An exception of the fetcher that is no [RuntimeError] ends the run:
    if the rounds before some sub-range went through and the fetcher then
    raises such an exception, [get_meteo_data] raises it after the 1-second
    pause; the rows gathered so far are not returned and the sub-ranges
    that follow are not tried. *)
Theorem get_meteo_data_aborts (fuel : nat) (city : string)
    (latitude longitude : Q) (start_date end_date : date)
    (r1 r2 : list (date * date)) (a b : date) (all1 : list record)
    (st st1 st2 : state World) (e : exn) :
  COORDINATES !! city = Some (latitude, longitude) ->
  valid_date start_date = true ->
  valid_date end_date = true ->
  year end_date < MAXYEAR ->
  (enough_fuel end_date start_date <= fuel)%nat ->
  month_ranges start_date end_date = (r1 ++ (a, b) :: r2)%list ->
  run_rounds fetcher city latitude longitude r1 [] st = (inr all1, st1) ->
  fetcher city latitude longitude a b
    (record_event st1 (ELog INFO (MsgInterval city a b))) = (inl e, st2) ->
  is_RuntimeError e = false ->
  get_meteo_data_with World fetcher fuel city start_date end_date "month" st
  = Some (inl e, record_event st2 (ESleep 1)).
Proof.
  intros Hc Hv Hve Hy Hfuel Hranges Hr1 Hf He.
  rewrite (get_meteo_data_with_month fuel city latitude longitude) by done.
  rewrite months_loop_month_ranges by done.
  rewrite Hranges, run_rounds_app, Hr1. cbn [run_rounds].
  by rewrite (fetch_round_other_error World fetcher _ _ _ _ _ _ _ _ _ Hf He).
Qed.

(** X14. When [start_date] is after [end_date], [get_meteo_data] returns the
    empty dataset at once: no request, no pause, no log line, no error. *)
Theorem get_meteo_data_empty_range (fuel : nat) (city : string)
    (start_date end_date : date) (st : state World) :
  is_Some (COORDINATES !! city) ->
  date_leb start_date end_date = false ->
  get_meteo_data_with World fetcher (S fuel) city start_date end_date "month" st
  = Some (inr [], st).
Proof.
  intros [[la lo] Hc] Hle. unfold get_meteo_data_with. rewrite Hc.
  change (negb ("month" =? "month")%string) with false. cbn iota.
  cbn [months_loop]. by rewrite Hle.
Qed.

End Rounds.

(** ** Runs with the module's own fetcher *)



Lemma seconds_slept_app (tr1 tr2 : list event) :
  seconds_slept (tr1 ++ tr2) = seconds_slept tr1 + seconds_slept tr2.
Proof.
  unfold seconds_slept. induction tr1 as [|ev tr1 IH]; [cbn; lia|].
  cbn [app foldr]. destruct ev; lia.
Qed.

(** What the failed attempts of one call leave in a trace. *)
Lemma retry_events_summary (p : params) (os : list (request_error + response))
    (k : nat) :
  logged_intervals (retry_events p os k) = []
  /\ filter (fun ev => is_pause ev = true) (retry_events p os k) = []
  /\ requested_ranges (retry_events p os k)
     = replicate (length os) (p_start_date p, p_end_date p)
  /\ seconds_slept (retry_events p os k) = 5 * Z.of_nat (length os).
Proof.
  revert k. induction os as [|o os IH]; intros k; [done|].
  destruct (IH (S k)) as (H1 & H2 & H3 & H4). cbn [retry_events].
  split; [exact H1|]. split.
  { rewrite filter_cons_False by (cbn; discriminate).
    rewrite filter_cons_False by (cbn; discriminate).
    by rewrite filter_cons_False by (cbn; discriminate). }
  split.
  { unfold requested_ranges in *. cbn [flat_map app length replicate].
    by rewrite H3. }
  unfold seconds_slept in *. cbn [foldr length]. lia.
Qed.



Section RealRuns.

Variable World : Type.
Variable requests_get : string -> params -> World -> (request_error + response) * World.






(** *** When every request fails *)

Lemma responds_last (p : params) (w w' : World)
    (os : list (request_error + response)) (o : request_error + response) :
  responds World requests_get p w (os ++ [o])%list w' ->
  exists w1, requests_get API_URL p w1 = (o, w').
Proof.
  revert w. induction os as [|o1 os IH]; intros w Hres.
  - inversion Hres as [|? ? ? ? ? Hg Hrest]; subst.
    inversion Hrest; subst. by exists w.
  - inversion Hres as [|? ? w2 ? ? Hg Hrest]; subst. by eapply IH.
Qed.

Hypothesis network_down :
  forall url p w, is_failure (requests_get url p w).1 = true.

Lemma fetch_network_down (city : string) (latitude longitude : Q)
    (a b : date) (st : state World) :
  exists os st',
    fetch_data_interval World requests_get city latitude longitude a b st
    = (inl (RuntimeError msg_max_retries), st')
    /\ length os = MAX_RETRIES
    /\ trace st'
       = (trace st ++ retry_events (params_of latitude longitude a b) os 0)%list.
Proof using network_down.
  destruct (fetch_data_interval _ _ _ _ _ _ _ st) as [r st'] eqn:H.
  pose proof H as H0. rewrite fetch_data_interval_unfold in H0.
  apply retry_loop_shape in H0 as (fails & _ & H0).
  destruct H0 as [(Hlen & _ & Htr & ->)|(_ & resp & Hok & Hres & _ & _)].
  - by exists fails, st'.
  - apply responds_last in Hres as [w1 Hget].
    pose proof (network_down API_URL
                  (params_of latitude longitude a b) w1) as Hd.
    rewrite Hget in Hd. cbn [fst] in Hd. congruence.
Qed.

Lemma run_rounds_network_down (city : string) (latitude longitude : Q)
    (ranges : list (date * date)) (all_data : list record) (st : state World) :
  exists st' ext,
    run_rounds (fetch_data_interval World requests_get) city latitude
      longitude ranges all_data st = (inr all_data, st')
    /\ trace st' = (trace st ++ ext)%list
    /\ length (filter (fun ev => is_get ev = true) ext)
       = (5 * length ranges)%nat
    /\ seconds_slept ext = 26 * Z.of_nat (length ranges).
Proof using network_down.
  revert st. induction ranges as [|[a b] ranges IH]; intros st.
  { exists st, []. by rewrite app_nil_r. }
  cbn [run_rounds].
  destruct (fetch_network_down city latitude longitude a b
              (record_event st (ELog INFO (MsgInterval city a b))))
    as (os & st1 & Hf & Hlen & Htr1).
  rewrite (fetch_round_runtime_error World _ _ _ _ _ _ _ _ _ _ Hf eq_refl).
  destruct (IH (record_event
                  (record_event st1 (ELog ERROR
                     (MsgException (RuntimeError msg_max_retries))))
                  (ESleep 1)))
    as (st' & ext & -> & Htr & Hg & Hs).
  set (p := params_of latitude longitude a b) in *.
  exists st', ([ELog INFO (MsgInterval city a b)] ++ retry_events p os 0
               ++ [ELog ERROR (MsgException (RuntimeError msg_max_retries));
                   ESleep 1] ++ ext)%list.
  split; [reflexivity|]. split.
  { rewrite Htr. cbn [record_event trace]. rewrite Htr1.
    cbn [record_event trace]. by rewrite <- !app_assoc. }
  destruct (retry_events_summary p os 0) as (_ & _ & _ & Hsl).
  split.
  - rewrite !filter_app, !length_app, retry_events_gets, Hlen, Hg.
    rewrite !filter_cons_False by (cbn; discriminate). rewrite filter_nil.
    cbn [length]. unfold MAX_RETRIES. lia.
  - rewrite !seconds_slept_app, Hsl, Hs, Hlen.
    unfold seconds_slept at 1 2. cbn [foldr length]. unfold MAX_RETRIES. lia.
Qed.

(** X17. When every request fails, no error reaches the caller of
    [get_meteo_data]: it returns the empty dataset, after five requests per
    sub-range and 26 seconds of sleep per sub-range (five times 5 seconds
    between the attempts and after the last, and the 1-second pause). *)
Theorem get_meteo_data_network_down (fuel : nat) (city : string)
    (start_date end_date : date) (st : state World) :
  is_Some (COORDINATES !! city) ->
  valid_date start_date = true ->
  valid_date end_date = true ->
  year end_date < MAXYEAR ->
  (enough_fuel end_date start_date <= fuel)%nat ->
  exists st' ext,
    get_meteo_data World requests_get fuel city start_date end_date "month" st
    = Some (inr [], st')
    /\ trace st' = (trace st ++ ext)%list
    /\ length (filter (fun ev => is_get ev = true) ext)
       = (5 * length (month_ranges start_date end_date))%nat
    /\ seconds_slept ext
       = 26 * Z.of_nat (length (month_ranges start_date end_date)).
Proof using network_down.
  intros [[la lo] Hc] Hv Hve Hy Hfuel. unfold get_meteo_data.
  rewrite (get_meteo_data_with_month World _ fuel city la lo) by done.
  rewrite months_loop_month_ranges by done.
  destruct (run_rounds_network_down city la lo
              (month_ranges start_date end_date) [] st)
    as (st' & ext & Hr & H). exists st', ext. by rewrite Hr.
Qed.

End RealRuns.

(** ** Concrete runs of the sub-range theorems *)

Lemma month_ranges_cover_witness :
  (exists b rs, month_ranges d_2020_01_31 d_2020_03_15 = (d_2020_01_31, b) :: rs)
  /\ (exists a, last (month_ranges d_2020_01_31 d_2020_03_15)
                = Some (a, d_2020_03_15))
  /\ (forall i a b c d,
        month_ranges d_2020_01_31 d_2020_03_15 !! i = Some (a, b) ->
        month_ranges d_2020_01_31 d_2020_03_15 !! S i = Some (c, d) ->
        tomorrow b = inr c)
  /\ Forall (fun r => date_leb r.1 r.2 = true)
       (month_ranges d_2020_01_31 d_2020_03_15).
Proof.
  apply (month_ranges_cover d_2020_01_31 d_2020_03_15).
  - reflexivity.
  - reflexivity.
  - reflexivity.
  - reflexivity.
Defined.

Lemma month_ranges_whole_months_witness :
  ((0 < 1)%nat -> day (mkdate 2020 2 1) = 1)
  /\ ((2 < length (month_ranges (mkdate 2020 1 15) (mkdate 2020 4 10)))%nat ->
      day (mkdate 2020 2 29)
      = days_in_month (year (mkdate 2020 2 29)) (month (mkdate 2020 2 29)))
  /\ ((0 < 1)%nat ->
      year (mkdate 2020 2 1) = year (mkdate 2020 2 29)
      /\ month (mkdate 2020 2 1) = month (mkdate 2020 2 29)).
Proof.
  apply (month_ranges_whole_months (mkdate 2020 1 15) (mkdate 2020 4 10)
           eq_refl eq_refl eq_refl eq_refl 1%nat
           (mkdate 2020 2 1) (mkdate 2020 2 29)).
  vm_compute. reflexivity.
Defined.

Lemma month_ranges_from_first_day_witness :
  Z.of_nat (length (month_ranges d_2010_01_01 d_2020_12_31))
  = month_index d_2020_12_31 - month_index d_2010_01_01 + 1
  /\ forall i a b,
       month_ranges d_2010_01_01 d_2020_12_31 !! i = Some (a, b) ->
       day a = 1
       /\ month_index a = month_index d_2010_01_01 + Z.of_nat i
       /\ year b = year a /\ month b = month a.
Proof.
  apply (month_ranges_from_first_day d_2010_01_01 d_2020_12_31).
  - reflexivity.
  - reflexivity.
  - reflexivity.
  - reflexivity.
  - reflexivity.
Defined.

(** The run [main] asks for has 132 sub-ranges per city, one per month. *)
Example month_ranges_of_main :
  length (month_ranges d_2010_01_01 d_2020_12_31) = 132%nat.
Proof. vm_compute. reflexivity. Qed.

Lemma get_meteo_data_rounds_witness :
  get_meteo_data_with unit failing_fetcher 10 "Madrid" d_2020_01_31
    d_2020_03_15 "month" (mkstate tt [])
  = Some (run_rounds failing_fetcher "Madrid" madrid_lat madrid_lon
            (month_ranges d_2020_01_31 d_2020_03_15) [] (mkstate tt [])).
Proof.
  apply (get_meteo_data_rounds unit failing_fetcher 10 "Madrid"
           madrid_lat madrid_lon d_2020_01_31 d_2020_03_15 (mkstate tt [])).
  - vm_compute. reflexivity.
  - reflexivity.
  - reflexivity.
  - reflexivity.
  - vm_compute. lia.
Defined.

Lemma get_meteo_data_empty_range_witness :
  get_meteo_data_with unit failing_fetcher 1 "Madrid" d_2020_03_15
    d_2020_01_31 "month" (mkstate tt [])
  = Some (inr [], mkstate tt []).
Proof.
  apply (get_meteo_data_empty_range unit failing_fetcher 0 "Madrid"
           d_2020_03_15 d_2020_01_31 (mkstate tt [])).
  - vm_compute. by eexists.
  - reflexivity.
Defined.



Lemma get_meteo_data_network_down_witness :
  exists st' ext,
    get_meteo_data nat (always not_found) 200 "Madrid" d_2010_01_01
      d_2020_12_31 "month" (mkstate 0%nat [])
    = Some (inr [], st')
    /\ trace st' = ([] ++ ext)%list
    /\ length (filter (fun ev => is_get ev = true) ext)
       = (5 * length (month_ranges d_2010_01_01 d_2020_12_31))%nat
    /\ seconds_slept ext
       = 26 * Z.of_nat (length (month_ranges d_2010_01_01 d_2020_12_31)).
Proof.
  apply (get_meteo_data_network_down nat (always not_found)
           (fun url p w => eq_refl) 200 "Madrid" d_2010_01_01 d_2020_12_31
           (mkstate 0%nat [])).
  - vm_compute. by eexists.
  - reflexivity.
  - reflexivity.
  - reflexivity.
  - vm_compute. lia.
Defined.

Lemma get_meteo_data_aborts_witness :
  get_meteo_data_with nat
    (fetch_data_interval nat (always (inr (mkresponse 200 payload_without_date))))
    10 "Madrid" d_2020_01_31 d_2020_03_15 "month" (mkstate 0%nat [])
  = Some (inl (KeyError "date"),
          record_event
            (mkstate 1%nat
               [ELog INFO (MsgInterval "Madrid" d_2020_01_31 (mkdate 2020 2 29));
                EGet API_URL
                  (params_of madrid_lat madrid_lon d_2020_01_31 (mkdate 2020 2 29))])
            (ESleep 1)).
Proof.
  apply (get_meteo_data_aborts nat
           (fetch_data_interval nat
              (always (inr (mkresponse 200 payload_without_date))))
           10 "Madrid" madrid_lat madrid_lon d_2020_01_31 d_2020_03_15
           [] [(mkdate 2020 3 1, d_2020_03_15)]
           d_2020_01_31 (mkdate 2020 2 29) [] (mkstate 0%nat [])
           (mkstate 0%nat [])).
  - vm_compute. reflexivity.
  - reflexivity.
  - reflexivity.
  - reflexivity.
  - vm_compute. lia.
  - vm_compute. reflexivity.
  - reflexivity.
  - vm_compute. reflexivity.
  - reflexivity.
Defined.

(** * The colour table of the plot *)

Lemma unique_from_spec (seen l : list string) (x : string) :
  x ∈ unique_from seen l <-> x ∈ l /\ x ∉ seen.
Proof.
  revert seen. induction l as [|y l IH]; intros seen; cbn [unique_from].
  { split; [by intros ?%elem_of_nil|]. by intros [?%elem_of_nil _]. }
  destruct (decide (y ∈ seen)) as [Hy|Hy].
  - rewrite IH, elem_of_cons. split; [tauto|].
    intros [[->|Hx] Hn]; [contradiction|done].
  - rewrite elem_of_cons, IH, !elem_of_cons. split.
    + intros [->|[Hx Hn]]; [by split; [left|]|]. split; [by right|tauto].
    + intros [[->|Hx] Hn]; [by left|].
      destruct (decide (x = y)) as [->|Hne]; [by left|]. right. tauto.
Qed.

Lemma unique_from_NoDup (seen l : list string) : NoDup (unique_from seen l).
Proof.
  revert seen. induction l as [|y l IH]; intros seen; cbn [unique_from].
  { constructor. }
  destruct (decide (y ∈ seen)); [apply IH|]. constructor; [|apply IH].
  rewrite unique_from_spec, elem_of_cons. tauto.
Qed.

(** The table built from distinct keys holds, for each key, the value
    paired with it. *)
Lemma colors_lookup (keys vals : list string) (m : gmap string string)
    (k : string) :
  NoDup keys ->
  foldl (fun m p => <[p.1 := p.2]> m) m (zip keys vals) !! k
  = match list_find (fun p => p.1 = k) (zip keys vals) with
    | Some (_, p) => Some p.2
    | None => m !! k
    end.
Proof.
  revert vals m. induction keys as [|a keys IH]; intros vals m Hnd;
    [reflexivity|].
  destruct vals as [|v vals]; [reflexivity|]. cbn [zip zip_with foldl].
  apply NoDup_cons in Hnd as [Ha Hnd]. rewrite IH by done.
  cbn [list_find]. destruct (decide ((a, v).1 = k)) as [Hk|Hk]; cbn in Hk.
  - subst a. destruct (list_find _ (zip keys vals)) as [[i p]|] eqn:E.
    + apply list_find_Some in E as (Hi & Hp & _).
      apply list_elem_of_lookup_2 in Hi. destruct p as [p1 p2].
      apply elem_of_zip_l in Hi. cbn in Hp. by subst p1.
    + cbn. by rewrite lookup_insert_eq.
  - destruct (list_find _ (zip keys vals)) as [[i p]|]; cbn; [done|].
    by rewrite lookup_insert_ne.
Qed.

Lemma colors_domain (cities : list string) (city : string) :
  is_Some (colors cities !! city) <-> city ∈ take 3 (unique cities).
Proof.
  unfold colors. rewrite colors_lookup by apply unique_from_NoDup.
  destruct (list_find _ _) as [[i p]|] eqn:E.
  - apply list_find_Some in E as (Hi & Hp & _).
    split; [intros _|by eexists]. destruct p as [p1 p2]. cbn in Hp. subst p1.
    pose proof (lookup_lt_Some _ _ _ Hi) as Hlen.
    rewrite length_zip_with in Hlen. cbn in Hlen.
    apply lookup_zip_with_Some in Hi as (x & y & Heq & Hx & _).
    injection Heq as <- <-.
    apply list_elem_of_lookup. exists i. by rewrite lookup_take_lt by lia.
  - rewrite lookup_empty. split; [by intros [? ?]|]. intros Hin. exfalso.
    apply list_elem_of_lookup in Hin as [i Hi].
    pose proof (lookup_lt_Some _ _ _ Hi) as Hlen.
    rewrite length_take in Hlen.
    rewrite lookup_take_lt in Hi by lia.
    destruct (lookup_lt_is_Some_2 PALETTE i) as [v Hv]; [cbn; lia|].
    apply list_find_None in E.
    assert (zip (unique cities) PALETTE !! i = Some (city, v)) as Hz.
    { apply lookup_zip_with_Some. by eexists _, _. }
    eapply Forall_lookup_1 in E; [|exact Hz]. by apply E.
Qed.

(** X18. The colour table has an entry for every city of the data exactly
    when the data has at most three distinct cities: with more, the lookup
    of some city of the data raises [KeyError]. *)
Theorem colors_cover (cities : list string) :
  (forall city, city ∈ cities -> exists c, color_of cities city = inr c)
  <-> (length (unique cities) <= 3)%nat.
Proof.
  assert (Hcol : forall city,
            (exists c, color_of cities city = inr c)
            <-> city ∈ take 3 (unique cities)).
  { intros city. rewrite <- colors_domain. unfold color_of.
    destruct (colors cities !! city) as [c|].
    - split; intros _; by eexists.
    - split; [by intros [c ?]|by intros [? ?]]. }
  split.
  - intros Hall. destruct (decide (length (unique cities) <= 3)%nat) as [|Hn];
      [done|]. exfalso.
    destruct (lookup_lt_is_Some_2 (unique cities) 3) as [x Hx]; [lia|].
    assert (x ∈ cities) as Hin.
    { apply list_elem_of_lookup_2 in Hx.
      by apply unique_from_spec in Hx as [? _]. }
    apply Hall, Hcol, list_elem_of_lookup in Hin as [i Hi].
    pose proof (lookup_lt_Some _ _ _ Hi) as Hlen. rewrite length_take in Hlen.
    rewrite lookup_take_lt in Hi by lia.
    pose proof (NoDup_lookup _ _ _ _ (unique_from_NoDup [] cities) Hi Hx). lia.
  - intros Hlen city Hin. apply Hcol. rewrite take_ge by done.
    apply unique_from_spec. split; [done|]. by intros ?%elem_of_nil.
Qed.

(** The three cities of [main] get the three colours in their order. *)
Example colors_of_main :
  color_of ["Madrid"; "Madrid"; "London"; "Rio de Janeiro"; "London"] "London"
  = inr "green"
  /\ color_of ["Madrid"; "London"; "Rio de Janeiro"; "Paris"] "Paris"
     = inl (KeyError "Paris").
Proof. split; vm_compute; reflexivity. Qed.

(** * Undecoded responses and unparsed dates *)

Section RawProofs.

Variable World : Type.
Variable requests_get : string -> params -> World
                        -> (request_error + raw_response) * World.
Variable strptime : string -> res date.

(** An outcome on which lines 77-79 raise: the attempt raises the same. *)
Lemma attempt_raw_early (city : string) (p : params) (w w' : World)
    (o : request_error + raw_response) (e : exn) (tr : list event) :
  requests_get API_URL p w = (o, w') ->
  early_exn o = Some e ->
  attempt_raw World requests_get city p (mkstate w tr)
  = (inl e, mkstate w' (tr ++ [EGet API_URL p])%list).
Proof.
  intros Hget He. unfold attempt_raw, bind, http_get_raw, lift.
  cbn [world trace]. rewrite Hget. destruct o as [e1|r]; cbn in He.
  - by injection He as <-.
  - destruct (raise_for_status_raw r) as [e1|[]]; [by injection He as <-|].
    destruct (raw_json r) as [e1|data]; [by injection He as <-|discriminate].
Qed.

(** A response without error status whose body decodes: the payload
    decides. *)
Lemma attempt_raw_payload (city : string) (p : params) (w w' : World)
    (r : raw_response) (data : json) (tr : list event) :
  requests_get API_URL p w = (inr r, w') ->
  raise_for_status_raw r = inr tt ->
  raw_json r = inr data ->
  attempt_raw World requests_get city p (mkstate w tr)
  = (rbind (validate_response data) (fun _ => extract_rows city data),
     mkstate w' (tr ++ [EGet API_URL p])%list).
Proof.
  intros Hget Hs Hj. unfold attempt_raw, bind, http_get_raw, lift.
  cbn [world trace]. rewrite Hget, Hs, Hj.
  by destruct (validate_response data).
Qed.

Lemma early_exn_cases (o : request_error + raw_response) (e : exn) :
  early_exn o = Some e ->
  is_RequestException e = true
  \/ exists r, o = inr r /\ raise_for_status_raw r = inr tt
               /\ raw_json r = inl e.
Proof.
  destruct o as [e1|r]; cbn.
  - intros [= <-]. by left.
  - destruct (raise_for_status_raw r) as [e1|[]] eqn:Hs.
    + intros [= <-]. left. unfold raise_for_status_raw in Hs.
      destruct (_ && _); [|discriminate]. by injection Hs as <-.
    + destruct (raw_json r) as [e1|data] eqn:Hj; [|discriminate].
      intros [= <-]. right. by exists r.
Qed.

Lemma early_exn_none (o : request_error + raw_response) :
  early_exn o = None ->
  exists r data, o = inr r /\ raise_for_status_raw r = inr tt
                 /\ raw_json r = inr data.
Proof.
  destruct o as [e1|r]; cbn; [discriminate|].
  destruct (raise_for_status_raw r) as [e1|[]] eqn:Hs; [discriminate|].
  destruct (raw_json r) as [e1|data] eqn:Hj; [discriminate|]. intros _.
  by exists r, data.
Qed.

Lemma retry_loop_raw_escape (budget retries : nat) (city : string)
    (p : params) (st st' : state World) (e : exn) :
  attempt_raw World requests_get city p st = (inl e, st') ->
  is_RequestException e = false ->
  retry_loop_raw World requests_get (S budget) retries city p st = (inl e, st').
Proof.
  intros Ha He. cbn [retry_loop_raw]. unfold catch. rewrite Ha, He.
  destruct e; try reflexivity. discriminate.
Qed.

(** The shape of a run: a series of attempts that raised a
    [RequestException]; then either the budget is spent, or one more request
    brings a response without error status, and the decoding of its body and
    its payload decide the result. *)
Lemma retry_loop_raw_shape (budget retries : nat) (city : string) (p : params)
    (st st' : state World) (r : res (list record)) :
  retry_loop_raw World requests_get budget retries city p st = (r, st') ->
  exists fails,
    forallb is_retried fails = true
    /\ ((length fails = budget
         /\ responds_raw World requests_get p (world st) fails (world st')
         /\ r = inl (RuntimeError msg_max_retries))
        \/ ((length fails < budget)%nat
            /\ exists resp,
                 responds_raw World requests_get p (world st)
                   (fails ++ [inr resp])%list (world st')
                 /\ raise_for_status_raw resp = inr tt
                 /\ ((exists e, raw_json resp = inl e
                                /\ is_RequestException e = false
                                /\ r = inl e)
                     \/ (exists data,
                           raw_json resp = inr data
                           /\ r = rbind (validate_response data)
                                    (fun _ => extract_rows city data))))).
Proof.
  revert retries st. induction budget as [|budget IH]; intros retries [w tr].
  { cbn. intros [= <- <-]. exists []. split; [reflexivity|]. left.
    repeat split. constructor. }
  destruct (requests_get API_URL p w) as [o w1] eqn:Hget.
  destruct (early_exn o) as [e|] eqn:He.
  - pose proof (attempt_raw_early city p w w1 o e tr Hget He) as Ha.
    destruct (is_RequestException e) eqn:Hr.
    + cbn [retry_loop_raw]. unfold catch at 1. rewrite Ha, Hr.
      unfold bind, logging, sleep, emit. cbn [world trace].
      intros H. apply IH in H as (fails & Hall & H). cbn [world trace] in H.
      exists (o :: fails). split.
      { cbn [forallb]. unfold is_retried at 1. by rewrite He, Hr. }
      destruct H as [(Hlen & Hres & ->)|(Hlen & resp & Hres & H)].
      * left. cbn [length world]. split; [lia|]. split; [|done].
        by econstructor.
      * right. cbn [length world]. split; [lia|]. exists resp.
        split; [|done]. by econstructor.
    + rewrite (retry_loop_raw_escape budget retries city p _ _ e Ha Hr).
      intros [= <- <-].
      destruct (early_exn_cases o e He) as [Hc|(resp & -> & Hs & Hj)];
        [congruence|].
      exists []. split; [reflexivity|]. right. cbn [length]. split; [lia|].
      exists resp. cbn [world app]. split.
      { econstructor; [exact Hget|constructor]. }
      split; [done|]. left. by exists e.
  - destruct (early_exn_none o He) as (resp & data & -> & Hs & Hj).
    pose proof (attempt_raw_payload city p w w1 resp data tr Hget Hs Hj) as Ha.
    intros H.
    assert (r = rbind (validate_response data)
                  (fun _ => extract_rows city data)
            /\ st' = mkstate w1 (tr ++ [EGet API_URL p])%list) as [-> ->].
    { destruct (rbind _ _) as [e|rows] eqn:E.
      - rewrite (retry_loop_raw_escape budget retries city p _ _ e Ha) in H;
          [by injection H as <- <-|].
        destruct (validate_response data) as [e1|[]] eqn:Ev; cbn [rbind] in E.
        + injection E as <-. by eapply validate_response_not_request.
        + apply extract_rows_error in E. by destruct e.
      - cbn [retry_loop_raw] in H. unfold catch in H. rewrite Ha in H.
        by injection H as <- <-. }
    exists []. split; [reflexivity|]. right. cbn [length]. split; [lia|].
    exists resp. cbn [world app]. split.
    { econstructor; [exact Hget|constructor]. }
    split; [done|]. right. by exists data.
Qed.

Lemma fetch_data_interval_raw_unfold (city : string) (latitude longitude : Q)
    (start_date end_date : date) :
  fetch_data_interval_raw World requests_get city latitude longitude
    start_date end_date
  = retry_loop_raw World requests_get MAX_RETRIES 0 city
      (params_of latitude longitude start_date end_date).
Proof. reflexivity. Qed.


(** X6. Rows are never made up: when [fetch_data_interval] returns, the
    last response the transport gave came after fewer than [MAX_RETRIES]
    attempts that raised a [RequestException] (in the call, for an error
    status, or in the decoding of the body); it had no error status, its
    body decoded, the payload passed [validate_response], and the rows
    returned are the ones extracted from that payload. *)
Theorem fetch_data_interval_returns_validated (city : string)
    (latitude longitude : Q) (start_date end_date : date)
    (st st' : state World) (rows : list record) :
  fetch_data_interval_raw World requests_get city latitude longitude
    start_date end_date st = (inr rows, st') ->
  exists fails resp data,
    responds_raw World requests_get
      (params_of latitude longitude start_date end_date)
      (world st) (fails ++ [inr resp])%list (world st')
    /\ forallb is_retried fails = true
    /\ (length fails < MAX_RETRIES)%nat
    /\ raise_for_status_raw resp = inr tt
    /\ raw_json resp = inr data
    /\ validate_response data = inr tt
    /\ extract_rows city data = inr rows.
Proof.
  rewrite fetch_data_interval_raw_unfold. intros H.
  apply retry_loop_raw_shape in H as (fails & Hall & H).
  destruct H as [(_ & _ & Hr)|(Hlen & resp & Hres & Hs & H)]; [discriminate|].
  destruct H as [(e & _ & _ & Hr)|(data & Hj & Hr)]; [discriminate|].
  exists fails, resp, data. repeat (split; [done|]).
  destruct (validate_response data) as [e|[]]; [discriminate|].
  by split.
Qed.

(** What leaves the retry loop as an exception. *)
Lemma retry_loop_raw_raises (budget retries : nat) (city : string)
    (p : params) (st st' : state World) (e : exn) :
  retry_loop_raw World requests_get budget retries city p st = (inl e, st') ->
  is_RequestException e = false
  /\ ((e = RuntimeError msg_max_retries
       /\ exists fails,
            responds_raw World requests_get p (world st) fails (world st')
            /\ forallb is_retried fails = true
            /\ length fails = budget)
      \/ (exists fails resp,
            responds_raw World requests_get p (world st)
              (fails ++ [inr resp])%list (world st')
            /\ forallb is_retried fails = true
            /\ (length fails < budget)%nat
            /\ raise_for_status_raw resp = inr tt
            /\ (raw_json resp = inl e
                \/ exists data,
                     raw_json resp = inr data
                     /\ (validate_response data = inl e
                         \/ (validate_response data = inr tt
                             /\ extract_rows city data = inl e))))).
Proof.
  intros H. apply retry_loop_raw_shape in H as (fails & Hall & H).
  destruct H as [(Hlen & Hres & Hr)|(Hlen & resp & Hres & Hs & H)].
  { injection Hr as ->. split; [reflexivity|]. left. split; [reflexivity|].
    by exists fails. }
  destruct H as [(e1 & Hj & He & Hr)|(data & Hj & Hr)].
  - injection Hr as ->. split; [done|]. right. exists fails, resp.
    repeat (split; [done|]). by left.
  - destruct (validate_response data) as [e1|[]] eqn:Ev; cbn [rbind] in Hr.
    + injection Hr as ->. split; [by eapply validate_response_not_request|].
      right. exists fails, resp. repeat (split; [done|]). right. exists data.
      split; [done|]. by left.
    + symmetry in Hr. split.
      { apply extract_rows_error in Hr. by destruct e. }
      right. exists fails, resp. repeat (split; [done|]). right. exists data.
      split; [done|]. right. by split.
Qed.

(** X7. A [RequestException] never leaves [fetch_data_interval]. An
    exception of the call is either the [RuntimeError] of the spent budget,
    after [MAX_RETRIES] attempts in a row that raised a [RequestException],
    or it comes from a response without error status received after fewer
    such attempts: the exception, no [RequestException], that the decoding
    of its body raised, or the one that the validation or the row
    extraction raised on its payload. *)
Theorem fetch_data_interval_raises (city : string)
    (latitude longitude : Q) (start_date end_date : date)
    (st st' : state World) (e : exn) :
  fetch_data_interval_raw World requests_get city latitude longitude
    start_date end_date st = (inl e, st') ->
  is_RequestException e = false
  /\ ((e = RuntimeError "No se pudo obtener datos después de 5 intentos."
       /\ exists fails,
            responds_raw World requests_get
              (params_of latitude longitude start_date end_date)
              (world st) fails (world st')
            /\ forallb is_retried fails = true
            /\ length fails = MAX_RETRIES)
      \/ (exists fails resp,
            responds_raw World requests_get
              (params_of latitude longitude start_date end_date)
              (world st) (fails ++ [inr resp])%list (world st')
            /\ forallb is_retried fails = true
            /\ (length fails < MAX_RETRIES)%nat
            /\ raise_for_status_raw resp = inr tt
            /\ (raw_json resp = inl e
                \/ exists data,
                     raw_json resp = inr data
                     /\ (validate_response data = inl e
                         \/ (validate_response data = inr tt
                             /\ extract_rows city data = inl e))))).
Proof.
  rewrite fetch_data_interval_raw_unfold. apply retry_loop_raw_raises.
Qed.



End RawProofs.

(** ** The decoded view *)

(** Over a transport whose responses all decode, and on date strings that
    parse, the functions over raw responses are the functions over decoded
    ones. *)

Section Decoded.

Variable World : Type.
Variable requests_get : string -> params -> World -> (request_error + response) * World.

Lemma attempt_raw_decoded (city : string) (p : params) (st : state World) :
  attempt_raw World (decoded_transport requests_get) city p st
  = attempt World requests_get city p st.
Proof.
  unfold attempt_raw, attempt, bind, http_get_raw, http_get, lift,
    decoded_transport.
  destruct (requests_get API_URL p (world st)) as [[e|r] w]; [reflexivity|].
  unfold raise_for_status_raw, raise_for_status, decoded.
  cbn [raw_status raw_json].
  destruct (_ && _); [reflexivity|].
  by destruct (validate_response (body r)).
Qed.

Lemma retry_loop_raw_decoded (budget retries : nat) (city : string)
    (p : params) (st : state World) :
  retry_loop_raw World (decoded_transport requests_get) budget retries city p st
  = retry_loop World requests_get budget retries city p st.
Proof.
  revert retries st. induction budget as [|budget IH]; intros retries st;
    [reflexivity|].
  cbn [retry_loop_raw retry_loop]. unfold catch. rewrite attempt_raw_decoded.
  destruct (attempt World requests_get city p st) as [[e|rows] st1];
    [|reflexivity].
  destruct e; cbn [is_RequestException is_HTTPError]; try reflexivity.
  unfold bind, logging, sleep, emit. apply IH.
Qed.

Lemma fetch_data_interval_raw_decoded (city : string) (latitude longitude : Q)
    (start_date end_date : date) (st : state World) :
  fetch_data_interval_raw World (decoded_transport requests_get) city
    latitude longitude start_date end_date st
  = fetch_data_interval World requests_get city latitude longitude
      start_date end_date st.
Proof. apply retry_loop_raw_decoded. Qed.

End Decoded.

Lemma fetch_round_ext (World : Type)
    (f g : string -> Q -> Q -> date -> date -> M World (list record))
    (city : string) (latitude longitude : Q) (a b : date)
    (all_data : list record) (st : state World) :
  (forall c la lo x y s, f c la lo x y s = g c la lo x y s) ->
  fetch_round World f city latitude longitude a b all_data st
  = fetch_round World g city latitude longitude a b all_data st.
Proof.
  intros H. unfold fetch_round, finally, catch, bind, logging, emit.
  by rewrite H.
Qed.

Lemma months_loop_ext (World : Type)
    (f g : string -> Q -> Q -> date -> date -> M World (list record))
    (fuel : nat) (city : string) (latitude longitude : Q)
    (end_date_dt current_date : date) (all_data : list record)
    (st : state World) :
  (forall c la lo x y s, f c la lo x y s = g c la lo x y s) ->
  months_loop World f fuel city latitude longitude end_date_dt current_date
    all_data st
  = months_loop World g fuel city latitude longitude end_date_dt current_date
      all_data st.
Proof.
  intros H. revert current_date all_data st.
  induction fuel as [|fuel IH]; intros cur all_data st; [reflexivity|].
  cbn [months_loop]. destruct (date_leb cur end_date_dt); [|reflexivity].
  destruct (next_date_of cur) as [e|nd]; [reflexivity|].
  destruct (interval_end_of nd end_date_dt) as [e|ie]; [reflexivity|].
  rewrite (fetch_round_ext World f g) by done.
  destruct (fetch_round World g _ _ _ _ _ _ _) as [[e|all'] st1];
    [reflexivity|apply IH].
Qed.

(** [get_meteo_data] over decoded responses and parsed dates is
    [get_meteo_data_raw] where every body decodes and both strings parse. *)
Lemma get_meteo_data_raw_decoded (World : Type)
    (requests_get : string -> params -> World
                    -> (request_error + response) * World)
    (strptime : string -> res date) (fuel : nat) (city : string)
    (start_date end_date : string) (current_date end_date_dt : date)
    (interval : string) (st : state World) :
  strptime start_date = inr current_date ->
  strptime end_date = inr end_date_dt ->
  get_meteo_data_raw World (decoded_transport requests_get) strptime fuel
    city start_date end_date interval st
  = get_meteo_data World requests_get fuel city current_date end_date_dt
      interval st.
Proof.
  intros Hs He. unfold get_meteo_data_raw, get_meteo_data, get_meteo_data_with.
  destruct (COORDINATES !! city) as [[la lo]|]; [|reflexivity].
  destruct (negb _); [reflexivity|]. rewrite Hs, He.
  apply months_loop_ext. intros. apply fetch_data_interval_raw_decoded.
Qed.

(** ** Concrete runs over raw responses *)

Lemma fetch_data_interval_returns_validated_witness :
  exists fails resp data,
    responds_raw _ scripted_raw
      (params_of madrid_lat madrid_lon d_2020_01_01 d_2020_01_03)
      [inr not_json; inr (decoded MOCK_RESPONSE)] (fails ++ [inr resp])%list []
    /\ forallb is_retried fails = true
    /\ (length fails < MAX_RETRIES)%nat
    /\ raise_for_status_raw resp = inr tt
    /\ raw_json resp = inr data
    /\ validate_response data = inr tt
    /\ extract_rows "Madrid" data
       = inr (zip_rows "Madrid"
                [JStr "2020-01-01"; JStr "2020-01-02"; JStr "2020-01-03"]
                [JNum 5; JNum 6; JNum 7]
                [JNum 0; JNum (12 # 10); JNum (8 # 10)]
                [JNum 15; JNum 20; JNum 18]).
Proof.
  apply (fetch_data_interval_returns_validated _ scripted_raw "Madrid"
           madrid_lat madrid_lon d_2020_01_01 d_2020_01_03
           (mkstate [inr not_json; inr (decoded MOCK_RESPONSE)] [])
           (mkstate []
              [EGet API_URL (params_of madrid_lat madrid_lon d_2020_01_01 d_2020_01_03);
               ELog WARNING (MsgRetry (RequestException OtherRequestError) 1 5);
               ESleep 5;
               EGet API_URL (params_of madrid_lat madrid_lon d_2020_01_01 d_2020_01_03)])).
  vm_compute. reflexivity.
Defined.

Lemma fetch_data_interval_raises_witness :
  is_RequestException
    (ValueError "Exceeds the limit (4300 digits) for integer string conversion")
  = false
  /\ ((ValueError "Exceeds the limit (4300 digits) for integer string conversion"
       = RuntimeError "No se pudo obtener datos después de 5 intentos."
       /\ exists fails,
            responds_raw _ scripted_raw
              (params_of madrid_lat madrid_lon d_2020_01_01 d_2020_01_03)
              [inr huge_integer] fails []
            /\ forallb is_retried fails = true
            /\ length fails = MAX_RETRIES)
      \/ (exists fails resp,
            responds_raw _ scripted_raw
              (params_of madrid_lat madrid_lon d_2020_01_01 d_2020_01_03)
              [inr huge_integer] (fails ++ [inr resp])%list []
            /\ forallb is_retried fails = true
            /\ (length fails < MAX_RETRIES)%nat
            /\ raise_for_status_raw resp = inr tt
            /\ (raw_json resp
                = inl (ValueError
                         "Exceeds the limit (4300 digits) for integer string conversion")
                \/ exists data,
                     raw_json resp = inr data
                     /\ (validate_response data
                         = inl (ValueError
                                  "Exceeds the limit (4300 digits) for integer string conversion")
                         \/ (validate_response data = inr tt
                             /\ extract_rows "Madrid" data
                                = inl (ValueError
                                         "Exceeds the limit (4300 digits) for integer string conversion")))))).
Proof.
  apply (fetch_data_interval_raises _ scripted_raw "Madrid"
           madrid_lat madrid_lon d_2020_01_01 d_2020_01_03
           (mkstate [inr huge_integer] [])
           (mkstate []
              [EGet API_URL
                 (params_of madrid_lat madrid_lon d_2020_01_01 d_2020_01_03)])).
  vm_compute. reflexivity.
Defined.



(** A [ValueError] of [json()] leaves [get_meteo_data] after the request,
    the pause of the [finally] clause taken. *)
Example get_meteo_data_raw_huge_integer_run :
  get_meteo_data_raw _ scripted_raw strptime_sample 10 "Madrid" "2020-01-01"
    "2020-01-03" "month" (mkstate [inr huge_integer] [])
  = Some (inl (ValueError
                 "Exceeds the limit (4300 digits) for integer string conversion"),
          mkstate []
            [ELog INFO (MsgInterval "Madrid" d_2020_01_01 d_2020_01_03);
             EGet API_URL
               (params_of madrid_lat madrid_lon d_2020_01_01 d_2020_01_03);
             ESleep 1]).
Proof. vm_compute. reflexivity. Qed.

(** A body that is no JSON text is retried like a transport failure: five
    such responses spend the budget. *)
Example fetch_data_interval_raw_not_json_run :
  fst (fetch_data_interval_raw _ scripted_raw "Madrid" madrid_lat madrid_lon
         d_2020_01_01 d_2020_01_03
         (mkstate (replicate 5 (inr not_json)) []))
  = inl (RuntimeError "No se pudo obtener datos después de 5 intentos.").
Proof. vm_compute. reflexivity. Qed.

(** [len] and indexing of a [str] go by code point. *)
Example py_len_code_points :
  py_len (JStr "é") = inr 1%nat
  /\ py_getindex (JStr "aé!") 1 = inr (JStr "é")
  /\ py_getindex (JStr "aé!") 2 = inr (JStr "!")
  /\ py_getindex (JStr "aé!") 3 = inl IndexError.
Proof. repeat split; vm_compute; reflexivity. Qed.
